(** * certml: the RDA poisoning certifier, embedded and verified

    Shallow embedding of
      - [certml/certify/poison/upper_bound.py]  (class [UpperBound]:
        [certify], [cert_rda]), and
      - [certml/legacy/upper_bounds.py]  ([hinge_loss], [hinge_grad],
        [sample_lower_bound_attack], [generate_upper_and_lower_bounds],
        [get_projection_matrix]).

    Numbers.  The Python code computes on IEEE doubles; here every number
    is an exact rational ([Q]), so [+], [-], [*], [/] are exact and [<] is a
    total order.  [np.sqrt] has no rational counterpart and is a parameter
    ([np_sqrt]) of the development.  Arrays are lists, a matrix is the list
    of its rows.

    Effects.  A Python exception is the [Raise] branch of [result].  The
    attributes of the [UpperBound] object that [cert_rda] assigns are the
    record [Self.t], threaded explicitly through [cert_rda] and [certify]:
    what an aborted call leaves on the object is the first component of the
    returned pair.  Random draws ([np.random.choice], [np.random.normal])
    and the convex solver are parameters. *)

From Stdlib Require Import QArith Qround Qabs ZArith Lia Lqa.
From stdpp Require Import base list.

Local Open Scope Q_scope.

(** ** Numbers and arrays *)

(** A one-dimensional array, and a matrix as the list of its rows. *)
Abbreviation vec := (list Q).
Abbreviation matrix := (list (list Q)).

(** A float array whose entries may be nan: [None] is nan. *)
Abbreviation float_array := (list (option Q)).

(** Python's [a < b] on numbers. *)
Definition Qltb (a b : Q) : bool := negb (Qle_bool b a).

(** [np.maximum(a, b)] on scalars. *)
Definition np_maximum (a b : Q) : Q := if Qltb a b then b else a.

Definition zeros (n : nat) : vec := replicate n 0.

(** [u.dot(v)] for one-dimensional arrays. *)
Definition dot (u v : vec) : Q := foldr Qplus 0 (zip_with Qmult u v).

Definition vadd (u v : vec) : vec := zip_with Qplus u v.
Definition vsub (u v : vec) : vec := zip_with Qminus u v.

(** [c * v] and [v / c] for a scalar [c]. *)
Definition scal (c : Q) (v : vec) : vec := map (Qmult c) v.
Definition vdiv (v : vec) (c : Q) : vec := map (fun a => a / c) v.

Definition np_sum (l : vec) : Q := foldr Qplus 0 l.

(** [np.mean] of a one-dimensional array. *)
Definition np_mean (l : vec) : Q := np_sum l / inject_Z (Z.of_nat (length l)).

(** [X.shape[1]]. *)
Definition ncols (X : matrix) : nat :=
  match X with
  | [] => 0%nat
  | r :: _ => length r
  end.

(** [int(np.round(q))]: numpy rounds halves to the even neighbour. *)
Definition np_round (q : Q) : Z :=
  let fl := Qfloor q in
  match Qcompare (q - inject_Z fl) (1 # 2) with
  | Lt => fl
  | Gt => (fl + 1)%Z
  | Eq => if Z.even fl then fl else (fl + 1)%Z
  end.

(** ** Exceptions *)

Inductive exn : Set :=
  | TypeError
  | ValueError
  | IndexError
  | AssertionError
  | ZeroDivisionError
  | UnboundLocalError
  | SolverError.

Inductive result (A : Type) : Type :=
  | Ok (a : A)
  | Raise (e : exn).

Arguments Ok {A} a.
Arguments Raise {A} e.

(** ** The hinge loss of [legacy/upper_bounds.py] *)

(** [Y * (X.dot(w) + b)], one margin per row of [X]. *)
Definition margins (w : vec) (b : Q) (X : matrix) (Y : vec) : vec :=
  zip_with (fun x_i y_i => y_i * (dot x_i w + b)) X Y.

(** [hinge_loss(w, b, X, Y)] with [sample_weights=None]. *)
Definition hinge_loss (w : vec) (b : Q) (X : matrix) (Y : vec) : Q :=
  np_mean (map (fun m => np_maximum (1 - m) 0) (margins w b X Y)).

(** [hinge_loss(w, b, x, y)] on one point: [x] is one-dimensional and [y] a
    scalar, so [X.dot(w)] is a scalar and [np.mean] of a scalar is itself. *)
Definition hinge_loss_point (w : vec) (b : Q) (x : vec) (y : Q) : Q :=
  np_maximum (1 - y * (dot x w + b)) 0.

(** [hinge_grad(w, b, X, Y)], dense branch: the rows with margin below 1 are
    the support vectors; sums over an empty selection are zero.  The
    division by [X.shape[0]] is the rational one: on an empty [X] the code
    divides zero by zero and returns nan, which exact rationals do not
    have, so what is stated of [hinge_grad] is stated for a non-empty
    [X]. *)
Definition hinge_grad (w : vec) (b : Q) (X : matrix) (Y : vec) : vec * Q :=
  let n := inject_Z (Z.of_nat (length X)) in
  let sv := List.filter (fun p => Qltb (snd p * (dot (fst p) w + b)) 1) (zip X Y) in
  let grad_w :=
    vdiv (foldr vadd (zeros (ncols X))
            (map (fun p => scal (- snd p) (fst p)) sv)) n in
  let grad_b := np_sum (map (fun p => - snd p) sv) / n in
  (grad_w, grad_b).

(** [np.mean((Y * (X.dot(w) + b)) > 0)]. *)
Definition accuracy (w : vec) (b : Q) (X : matrix) (Y : vec) : Q :=
  np_mean (map (fun m => if Qltb 0 m then 1 else 0) (margins w b X Y)).

(** ** The classifier capability

    [cert_params()[1]] of the pipeline: the callables [loss] and [loss_grad].
    [loss] is called on the whole clean set and on one attack point; the two
    shapes are the fields [loss] and [loss_point]. *)

Record classifier : Type := mk_classifier {
  loss : matrix -> vec -> vec -> Q -> Q;
  loss_point : vec -> Q -> vec -> Q -> Q;
  loss_grad : matrix -> vec -> vec -> Q -> vec * Q
}.

(** The linear SVM: what the legacy function calls directly. *)
Definition hinge_classifier : classifier :=
  {| loss := fun X Y w b => hinge_loss w b X Y;
     loss_point := fun x y w b => hinge_loss_point w b x y;
     loss_grad := fun X Y w b => hinge_grad w b X Y |}.

(** ** State of one certification run *)

(** The locals of the loop that both variants update the same way: the
    attack-point trace ([x_bs], [y_bs]), the dual-averaging accumulators and
    the model. *)
Record rda_state : Type := mk_rda_state {
  x_bs : matrix;
  y_bs : vec;
  sum_of_grads_w : vec;
  sum_of_grads_b : Q;
  current_lambda : Q;
  w : vec;
  b : Q
}.

(** What one iteration computes before it updates anything. *)
Record iter_view : Type := mk_iter_view {
  worst_margin : Q;
  worst_y_b : Q;
  worst_x_b : vec;
  grad_w : vec;
  grad_b : Q;
  bad_loss : Q;
  good_loss : Q;
  params_norm_sq : Q;
  total_loss : Q
}.

(** The attributes of an [UpperBound] object that [cert_rda] assigns;
    [None] is Python's [None], their value after [__init__]. *)
Module Self.
Record t : Type := mk {
  x_c : option matrix;
  y_c : option vec;
  best_upper_bound : option Q;
  best_upper_good_loss : option Q;
  best_upper_bad_loss : option Q;
  best_upper_params_norm_sq : option Q;
  best_upper_good_acc : option Q;
  best_upper_bad_acc : option Q
}.

(** The object as [__init__] leaves it. *)
Definition init : t := mk None None None None None None None None.
End Self.

(** The best-bound locals of [generate_upper_and_lower_bounds]:
    [best_upper_bound] starts at 10000, the others are unbound ([None])
    until the first overwrite. *)
Module Legacy.
Record best : Type := mk {
  best_upper_bound : Q;
  best_upper_good_loss : option Q;
  best_upper_bad_loss : option Q;
  best_upper_params_norm_sq : option Q;
  best_upper_good_acc : option Q;
  best_upper_bad_acc : option Q
}.

Definition init : best := mk 10000 None None None None None.

(** What the function returns: the poisoned data set with its two index
    ranges ([slice(start, stop)] as a pair), then the best bound. *)
Record output : Type := mk_output {
  X_modified : matrix;
  Y_modified : vec;
  idx_train : nat * nat;
  idx_poison : nat * nat;
  out_best_upper_bound : Q;
  out_best_upper_good_loss : Q;
  out_best_upper_bad_loss : Q;
  out_best_upper_good_acc : Q;
  out_best_upper_bad_acc : Q;
  out_best_upper_params_norm_sq : Q
}.
End Legacy.

(** A candidate of the worst-margin search: margin, label, attack point. *)
Abbreviation candidate := (Q * Q * list Q)%type.

Section RDA.

(** [np.sqrt], and the order in which Python iterates over [set(y)]. *)
Variable np_sqrt : Q -> Q.
Variable set_iter : vec -> list Q.

(** The attack-point oracle for a label and the current weights:
    [self.minimize_over_feasible_set(y_b, w)], and in the legacy variant the
    lookup [class_map[y_b]] followed by
    [minimizer.minimize_over_feasible_set(y_b, w, centroids[class_idx, :],
    centroid_vec, sphere_radii[class_idx], slab_radii[class_idx])].  A failed
    lookup or solve raises. *)
Variable minimize_over_feasible_set : Q -> vec -> result vec.

(** The clean data, and the tunables. *)
Variables (x : matrix) (y : vec).
Variables (norm_sq_constraint learning_rate : Q) (max_iter : nat).

(** [np.linalg.norm(v)]. *)
Definition np_norm (v : vec) : Q := np_sqrt (dot v v).

(** *** Lines 155-165 / 472-488: the worst-margin search *)

Fixpoint worst_candidate (labels : list Q) (w : vec) (b : Q)
    (worst : option candidate) : result (option candidate) :=
  match labels with
  | [] => Ok worst
  | y_b :: rest =>
      match minimize_over_feasible_set y_b w with
      | Raise e => Raise e
      | Ok x_b =>
          let margin := y_b * (dot w x_b + b) in
          let worst' :=
            match worst with
            | None => Some (margin, y_b, x_b)
            | Some (worst_margin, _, _) =>
                if Qltb margin worst_margin
                then Some (margin, y_b, x_b)
                else worst
            end in
          worst_candidate rest w b worst'
      end
  end.

(** *** Lines 142-196 / 459-519: what an iteration computes

    With no label to enumerate [worst_margin] is still [None] at
    [worst_margin < 1], which raises [TypeError]. *)
Definition rda_quantities (clf : classifier) (epsilon : Q) (w : vec) (b : Q)
    : result iter_view :=
  let '(grad_w, grad_b) := loss_grad clf x y w b in
  match worst_candidate (set_iter y) w b None with
  | Raise e => Raise e
  | Ok None => Raise TypeError
  | Ok (Some (worst_margin, worst_y_b, worst_x_b)) =>
      let '(grad_w, grad_b) :=
        if Qltb worst_margin 1
        then (vsub grad_w (scal (epsilon * worst_y_b) worst_x_b),
              grad_b - epsilon * worst_y_b)
        else (grad_w, grad_b) in
      let bad_loss := loss_point clf worst_x_b worst_y_b w b in
      let good_loss := loss clf x y w b in
      let params_norm_sq := np_norm w ^ 2 + b ^ 2 in
      let total_loss := good_loss + epsilon * bad_loss in
      Ok (mk_iter_view worst_margin worst_y_b worst_x_b grad_w grad_b
            bad_loss good_loss params_norm_sq total_loss)
  end.

(** *** Lines 184-185 and 213-225 / 507-508 and 545-556: the trace entry and
    the dual-averaging update

    [x_bs[iter_idx, :] = worst_x_b] replaces row [iter_idx] (the oracle
    returns points of the data's dimension); [iter_idx] is always below
    [max_iter], the number of rows. *)
Definition dual_averaging (v : iter_view) (iter_idx : nat) (st : rda_state)
    : rda_state :=
  let x_bs := <[iter_idx := worst_x_b v]> (x_bs st) in
  let y_bs := <[iter_idx := worst_y_b v]> (y_bs st) in
  let sum_of_grads_w := vsub (sum_of_grads_w st) (grad_w v) in
  let sum_of_grads_b := sum_of_grads_b st - grad_b v in
  let candidate_lambda :=
    np_sqrt (np_norm sum_of_grads_w ^ 2 + sum_of_grads_b ^ 2)
    / np_sqrt norm_sq_constraint in
  let current_lambda :=
    if Qltb (current_lambda st) candidate_lambda
    then candidate_lambda
    else current_lambda st in
  mk_rda_state x_bs y_bs sum_of_grads_w sum_of_grads_b current_lambda
    (vdiv sum_of_grads_w current_lambda)
    (sum_of_grads_b / current_lambda).

(** Lines 108-129 / 425-446: the state before the first iteration. *)
Definition rda_init (init_w : vec) (init_b : Q) : rda_state :=
  mk_rda_state (replicate max_iter (zeros (ncols x))) (zeros max_iter)
    (zeros (ncols x)) 0 (1 / learning_rate) init_w init_b.

(** [1.0 if worst_margin > 0 else 0.0]. *)
Definition bad_acc (v : iter_view) : Q :=
  if Qltb 0 (worst_margin v) then 1 else 0.

(** *** [UpperBound.cert_rda] *)

Variable clf : classifier.

(** [self.init_w = np.zeros_like(start_w)]: only its length is used. *)
Variable start_w : vec.

(** Lines 198-207.  The local [best_upper_bound] is compared, the attributes
    of [self] are assigned; the local itself is not assigned. *)
Definition cert_rda_record (best_upper_bound : Q) (v : iter_view)
    (st : rda_state) (self : Self.t) : Self.t :=
  if Qltb (total_loss v) best_upper_bound
  then Self.mk (Self.x_c self) (Self.y_c self)
         (Some (total_loss v)) (Some (good_loss v)) (Some (bad_loss v))
         (Some (params_norm_sq v))
         (Some (accuracy (w st) (b st) x y))
         (Some (bad_acc v))
  else self.

(** One pass of the loop body, lines 135-225. *)
Definition cert_rda_step (epsilon best_upper_bound : Q) (iter_idx : nat)
    (self : Self.t) (st : rda_state) : Self.t * result rda_state :=
  match rda_quantities clf epsilon (w st) (b st) with
  | Raise e => (self, Raise e)
  | Ok v =>
      (cert_rda_record best_upper_bound v st self,
       Ok (dual_averaging v iter_idx st))
  end.

(** [for iter_idx in range(max_iter)], over the list of indices. *)
Fixpoint cert_rda_loop (epsilon best_upper_bound : Q) (idxs : list nat)
    (self : Self.t) (st : rda_state) : Self.t * result rda_state :=
  match idxs with
  | [] => (self, Ok st)
  | iter_idx :: rest =>
      match cert_rda_step epsilon best_upper_bound iter_idx self st with
      | (self', Raise e) => (self', Raise e)
      | (self', Ok st') => cert_rda_loop epsilon best_upper_bound rest self' st'
      end
  end.

(** [cert_rda(self, epsilon)]: the object after the call, and the returned
    triple or the exception.  [1 / self.learning_rate] raises on zero. *)
Definition cert_rda (epsilon : Q) (self : Self.t)
    : Self.t * result (option Q * option Q * option Q) :=
  if Qeq_bool learning_rate 0 then (self, Raise ZeroDivisionError) else
  let best_upper_bound := 10000 in
  match cert_rda_loop epsilon best_upper_bound (seq 0 max_iter) self
          (rda_init (zeros (length start_w)) 0) with
  | (self', Raise e) => (self', Raise e)
  | (self', Ok st) =>
      let self'' :=
        Self.mk (Some (x_bs st)) (Some (y_bs st))
          (Self.best_upper_bound self') (Self.best_upper_good_loss self')
          (Self.best_upper_bad_loss self')
          (Self.best_upper_params_norm_sq self')
          (Self.best_upper_good_acc self') (Self.best_upper_bad_acc self') in
      (self'',
       Ok (Self.best_upper_bound self'', Self.best_upper_good_acc self'',
           Self.best_upper_bad_loss self''))
  end.

(** *** [UpperBound.certify]

    The three result arrays are locals, float arrays like [epsilons]
    ([np.zeros_like(epsilons)]): an entry is a number or nan, which is
    [None] here.  Storing [None] into a float array stores nan. *)
Fixpoint certify_loop (epsilons : list Q) (idx : nat) (self : Self.t)
    (total_loss good_loss bad_loss : float_array)
    : Self.t * result (float_array * float_array * float_array) :=
  match epsilons with
  | [] => (self, Ok (total_loss, good_loss, bad_loss))
  | epsilon :: rest =>
      match cert_rda epsilon self with
      | (self', Raise e) => (self', Raise e)
      | (self', Ok (total_loss_i, good_loss_i, bad_loss_i)) =>
          certify_loop rest (S idx) self'
            (<[idx := total_loss_i]> total_loss)
            (<[idx := good_loss_i]> good_loss)
            (<[idx := bad_loss_i]> bad_loss)
      end
  end.

Definition certify (epsilons : list Q) (self : Self.t)
    : Self.t * result (float_array * float_array * float_array) :=
  let n := length epsilons in
  certify_loop epsilons 0 self (replicate n (Some 0)) (replicate n (Some 0))
    (replicate n (Some 0)).

(** *** [sample_lower_bound_attack]

    [np.random.choice(a, size, replace=False)] for an integer [a]: the draw
    is a parameter; what it may return is [np_random_choice_ok] below.  Fancy
    indexing [x_bs[idx, :]] raises [IndexError] out of range. *)
Variable np_random_choice : Z -> Z -> result (list nat).

Definition take_rows {A : Type} (rows : list A) (idx : list nat)
    : result (list A) :=
  match mapM (fun i => rows !! i) idx with
  | Some l => Ok l
  | None => Raise IndexError
  end.

Definition sample_lower_bound_attack (X_train : matrix) (Y_train : vec)
    (x_bs : matrix) (y_bs : vec) (epsilon : Q) (num_iter_to_throw_out : nat)
    : result (matrix * vec * (nat * nat) * (nat * nat)) :=
  if negb (Nat.eqb (length x_bs) (length y_bs)) then Raise AssertionError else
  let num_iter := (Z.of_nat (length x_bs) - Z.of_nat num_iter_to_throw_out)%Z in
  let size := np_round (epsilon * inject_Z (Z.of_nat (length X_train))) in
  match np_random_choice num_iter size with
  | Raise e => Raise e
  | Ok drawn =>
      let idx_to_sample := map (fun i => (i + num_iter_to_throw_out)%nat) drawn in
      match take_rows x_bs idx_to_sample, take_rows y_bs idx_to_sample with
      | Ok x_rows, Ok y_rows =>
          let X_modified := X_train ++ x_rows in
          let Y_modified := Y_train ++ y_rows in
          let idx_train := (0%nat, length X_train) in
          let idx_poison := (length X_train, length X_modified) in
          Ok (X_modified, Y_modified, idx_train, idx_poison)
      | Raise e, _ => Raise e
      | _, Raise e => Raise e
      end
  end.

(** *** [generate_upper_and_lower_bounds] *)

(** Lines 521-530: here the local [best_upper_bound] is assigned. *)
Definition legacy_record (v : iter_view) (st : rda_state) (bst : Legacy.best)
    : Legacy.best :=
  if Qltb (total_loss v) (Legacy.best_upper_bound bst)
  then Legacy.mk (total_loss v) (Some (good_loss v)) (Some (bad_loss v))
         (Some (params_norm_sq v))
         (Some (accuracy (w st) (b st) x y))
         (Some (bad_acc v))
  else bst.

Definition legacy_step (epsilon : Q) (iter_idx : nat)
    (bst : Legacy.best) (st : rda_state) : result (Legacy.best * rda_state) :=
  match rda_quantities hinge_classifier epsilon (w st) (b st) with
  | Raise e => Raise e
  | Ok v => Ok (legacy_record v st bst, dual_averaging v iter_idx st)
  end.

Fixpoint legacy_loop (epsilon : Q) (idxs : list nat)
    (bst : Legacy.best) (st : rda_state) : result (Legacy.best * rda_state) :=
  match idxs with
  | [] => Ok (bst, st)
  | iter_idx :: rest =>
      match legacy_step epsilon iter_idx bst st with
      | Raise e => Raise e
      | Ok (bst', st') => legacy_loop epsilon rest bst' st'
      end
  end.

(** The clean set is the section's [x], [y] ([X_train], [Y_train]).  Reading
    a best-bound local that no iteration assigned raises
    [UnboundLocalError]. *)
Definition generate_upper_and_lower_bounds (epsilon : Q)
    (num_iter_to_throw_out : nat) (init_w : vec) (init_b : Q)
    : result Legacy.output :=
  if Qeq_bool learning_rate 0 then Raise ZeroDivisionError else
  match legacy_loop epsilon (seq 0 max_iter) Legacy.init
          (rda_init init_w init_b) with
  | Raise e => Raise e
  | Ok (bst, st) =>
      match sample_lower_bound_attack x y (x_bs st) (y_bs st) epsilon
              num_iter_to_throw_out with
      | Raise e => Raise e
      | Ok (X_modified, Y_modified, idx_train, idx_poison) =>
          match Legacy.best_upper_good_loss bst,
                Legacy.best_upper_bad_loss bst,
                Legacy.best_upper_good_acc bst,
                Legacy.best_upper_bad_acc bst,
                Legacy.best_upper_params_norm_sq bst with
          | Some gl, Some bl, Some ga, Some ba, Some pn =>
              Ok (Legacy.mk_output X_modified Y_modified idx_train idx_poison
                    (Legacy.best_upper_bound bst) gl bl ga ba pn)
          | _, _, _, _, _ => Raise UnboundLocalError
          end
      end
  end.

End RDA.


(** ** [get_projection_matrix] *)

Section Projection.

(** [orth_rows M] is [scipy.linalg.orth(M.T).T]: the rows of the result are
    an orthonormal basis of the row space of [M].  The [k]-th call of
    [np.random.normal(size=(1, D))] since the function was entered is
    [np_random_normal k D]. *)
Variable orth_rows : matrix -> matrix.
Variable np_random_normal : nat -> nat -> vec.

(** The [while P.shape[0] < 3] loop; [None] when the fuel runs out.
    [P.shape[1]] is the dimension [D] of the inputs throughout: [orth] keeps
    the number of columns, also when no row is left. *)
Fixpoint pad_loop (fuel : nat) (D : nat) (calls : nat) (P : matrix)
    : option matrix :=
  if (length P <? 3)%nat then
    match fuel with
    | O => None
    | S fuel' =>
        pad_loop fuel' D (S calls)
          (orth_rows (P ++ [np_random_normal calls D]))
    end
  else Some P.

Definition get_projection_matrix (fuel : nat) (w centroid centroid_vec : vec)
    : option matrix :=
  pad_loop fuel (length w) 0 (orth_rows [w; centroid; centroid_vec]).

(** The matrix [P] when the loop test is evaluated for the [k]-th time. *)
Fixpoint padded (D : nat) (P0 : matrix) (k : nat) : matrix :=
  match k with
  | O => P0
  | S k' =>
      orth_rows (padded D P0 k' ++ [np_random_normal k' D])
  end.

(** The matrix that the [k]-th call of [orth] is given, for inputs of
    dimension [D]: the three stacked inputs, then the rows so far with one
    random row appended. *)
Definition orth_call (D : nat) (w centroid centroid_vec : vec) (k : nat)
    : matrix :=
  match k with
  | O => [w; centroid; centroid_vec]
  | S k' =>
      padded D (orth_rows [w; centroid; centroid_vec]) k'
        ++ [np_random_normal k' D]
  end.

End Projection.

(** Rows that are mutually orthogonal unit vectors. *)
Definition orthonormal (P : matrix) : Prop :=
  forall (i j : nat) (r s : vec),
    P !! i = Some r -> P !! j = Some s ->
    dot r s == (if Nat.eqb i j then 1 else 0).

(** The combination of the rows with the coefficients, in dimension [D]. *)
Definition lin_comb (D : nat) (coeffs : vec) (rows : matrix) : vec :=
  foldr vadd (zeros D) (zip_with scal coeffs rows).

(** [v] lies in the span of the rows. *)
Definition in_span (D : nat) (rows : matrix) (v : vec) : Prop :=
  exists coeffs : vec,
    length coeffs = length rows /\ Forall2 Qeq v (lin_comb D coeffs rows).

(** What [orth] guarantees of the call on [M], a matrix with [D] columns:
    the rows of the result are an orthonormal basis of the row space of
    [M], so they are no more than the rows of [M], have dimension [D], are
    orthonormal, lie in the span of the rows of [M] and span them.  The
    contract is stated call by call: with exact rationals for numbers, not
    every row space has an orthonormal basis, and the statements assume it
    of the calls a run makes. *)
Definition orth_ok (D : nat) (orth_rows : matrix -> matrix) (M : matrix)
    : Prop :=
  (length (orth_rows M) <= length M)%nat /\
  Forall (fun r => length r = D) (orth_rows M) /\
  orthonormal (orth_rows M) /\
  Forall (in_span D M) (orth_rows M) /\
  Forall (in_span D (orth_rows M)) M.

(** ** Vocabulary of the statements *)

(** [margin = y_b * (w.dot(x_b) + b)]. *)
Definition margin_of (w : vec) (b : Q) (y_b : Q) (x_b : vec) : Q :=
  y_b * (dot w x_b + b).

(** [m] is below or equal to the margin of every enumerated label and
    strictly below the margins of the labels enumerated before position
    [i]. *)
Definition first_minimal (oracle : Q -> vec -> result vec) (w : vec) (b : Q)
    (labels : list Q) (i : nat) (m : Q) : Prop :=
  (forall (j : nat) (y' : Q) (x' : vec),
      labels !! j = Some y' -> oracle y' w = Ok x' ->
      m <= margin_of w b y' x') /\
  (forall (j : nat) (y' : Q) (x' : vec),
      (j < i)%nat ->
      labels !! j = Some y' -> oracle y' w = Ok x' ->
      m < margin_of w b y' x').

(** The model is the accumulated negated gradient over the current scale:
    [w = sum_of_grads_w / current_lambda], [b = sum_of_grads_b /
    current_lambda]. *)
Definition averaged (st : rda_state) : Prop :=
  w st = vdiv (sum_of_grads_w st) (current_lambda st) /\
  b st = sum_of_grads_b st / current_lambda st.

(** Two optional numbers that are both unset or both set and equal. *)
Definition same_number (a c : option Q) : Prop :=
  match a, c with
  | Some p, Some q => p == q
  | None, None => True
  | _, _ => False
  end.

(** The run seen through its [rda_state] alone: both loops step the state
    by [rda_quantities] then [dual_averaging], whatever they record. *)
Fixpoint rda_run (np_sqrt : Q -> Q) (set_iter : vec -> list Q)
    (oracle : Q -> vec -> result vec) (x : matrix) (y : vec)
    (norm_sq_constraint : Q) (clf : classifier) (epsilon : Q)
    (idxs : list nat) (st : rda_state) : result rda_state :=
  match idxs with
  | [] => Ok st
  | iter_idx :: rest =>
      match rda_quantities np_sqrt set_iter oracle x y clf epsilon
              (w st) (b st) with
      | Raise e => Raise e
      | Ok v =>
          rda_run np_sqrt set_iter oracle x y norm_sq_constraint clf epsilon
            rest (dual_averaging np_sqrt norm_sq_constraint v iter_idx st)
      end
  end.

(** The legacy locals: once assigned, the best bound is the good loss. *)
Definition legacy_bound_is_good (bst : Legacy.best) : Prop :=
  match Legacy.best_upper_good_loss bst with
  | Some g => Legacy.best_upper_bound bst == g
  | None => True
  end.

(** What holds of [P] each time the loop test of [get_projection_matrix] is
    evaluated, for inputs of dimension [D]. *)
Definition projection_rows (D : nat) (P : matrix) : Prop :=
  (length P <= 3)%nat /\ Forall (fun r => length r = D) P /\ orthonormal P.

(** ** A small instance to run the model on

    One feature, two clean points [(1, +1)] and [(-1, -1)], the feasible set
    of each class an interval of radius 3 around its centroid. *)

(** A square root that is exact on squares of rationals (and rounds down
    elsewhere): [sqrt (p/q) = sqrt (p*q) / q]. *)
Definition sqrt_floor (q : Q) : Q :=
  Z.sqrt (Qnum q * Z.pos (Qden q)) # Qden q.

(** [set(y)] enumerated by first occurrence. *)
Fixpoint first_occurrences (l : vec) : list Q :=
  match l with
  | [] => []
  | a :: rest =>
      a :: List.filter (fun c => negb (Qeq_bool a c)) (first_occurrences rest)
  end.

Definition ex_x : matrix := [[1]; [-1 # 1]].
Definition ex_y : vec := [1; -1 # 1].

(** The point of [centroid - 3, centroid + 3] that maximises
    [1 - y * w * x]: the centroid itself when the weight is zero. *)
Definition interval_oracle (y_b : Q) (w : vec) : result vec :=
  let centroid := if Qltb 0 y_b then 1 else -1 # 1 in
  let slope := y_b * hd 0 w in
  Ok [ if Qltb 0 slope then centroid - 3
       else if Qltb slope 0 then centroid + 3
       else centroid ].

(** The same oracle with a solver that fails once the weight is nonzero. *)
Definition flaky_oracle (y_b : Q) (w : vec) : result vec :=
  if Qeq_bool (hd 0 w) 0 then interval_oracle y_b w else Raise SolverError.

(** A draw of [np.random.choice]: the first [size] indices. *)
Definition choice_first (a size : Z) : result (list nat) :=
  if ((0 <=? size) && ((size =? 0) || (size <=? a)))%Z
  then Ok (seq 0 (Z.to_nat size))
  else Raise ValueError.

(** The [j]-th unit vector of dimension [D]. *)
Definition unit_vec (D j : nat) : vec := <[j := 1]> (zeros D).

(** An orthonormalisation that is exact when the row space is spanned by
    coordinate axes: the axes of the columns that are not zero, at most as
    many as there are rows. *)
Definition orth_axis (M : matrix) : matrix :=
  let D := ncols M in
  let used (j : nat) := existsb (fun r => negb (Qeq_bool (nth j r 0) 0)) M in
  take (length M) (map (unit_vec D) (List.filter used (seq 0 D))).

(** Draws along the axes, one after the other. *)
Definition axis_draws (k D : nat) : vec := unit_vec D (k mod D).

(** The instance, run: [norm_sq_constraint = 1], [learning_rate = 1/10],
    the hinge classifier, [start_w] of one coordinate. *)

Definition ex_loop (oracle : Q -> vec -> result vec) (epsilon : Q) (k : nat)
    : Self.t * result rda_state :=
  cert_rda_loop sqrt_floor first_occurrences oracle ex_x ex_y 1
    hinge_classifier epsilon 10000 (seq 0 k) Self.init
    (rda_init ex_x (1 # 10) 2 (zeros 1) 0).

Definition ex_cert_rda (oracle : Q -> vec -> result vec) (max_iter : nat)
    (epsilon : Q) (self : Self.t)
    : Self.t * result (option Q * option Q * option Q) :=
  cert_rda sqrt_floor first_occurrences oracle ex_x ex_y 1 (1 # 10) max_iter
    hinge_classifier [0] epsilon self.

Definition ex_certify (max_iter : nat) (epsilons : list Q)
    : Self.t * result (float_array * float_array * float_array) :=
  certify sqrt_floor first_occurrences interval_oracle ex_x ex_y 1 (1 # 10)
    max_iter hinge_classifier [0] epsilons Self.init.

Definition ex_legacy (max_iter : nat) (epsilon : Q)
    (num_iter_to_throw_out : nat) : result Legacy.output :=
  generate_upper_and_lower_bounds sqrt_floor first_occurrences interval_oracle
    ex_x ex_y 1 (1 # 10) max_iter choice_first epsilon num_iter_to_throw_out
    [0] 0.

(** The numbers of a result in lowest terms. *)
Definition in_lowest_terms (a : option Q) : option Q := option_map Qred a.

(** ** More of [legacy/upper_bounds.py] *)

(** [hinge_loss(w, b, X, Y, sample_weights)] with weights given: they are
    normalised to sum 1, then the weighted losses are added up. *)
Definition hinge_loss_weighted (w : vec) (b : Q) (X : matrix) (Y : vec)
    (sample_weights : vec) : Q :=
  let sample_weights := vdiv sample_weights (np_sum sample_weights) in
  np_sum (zip_with Qmult sample_weights
            (map (fun m => np_maximum (1 - m) 0) (margins w b X Y))).

(** [hinge_loss] with its optional argument. *)
Definition hinge_loss_opt (w : vec) (b : Q) (X : matrix) (Y : vec)
    (sample_weights : option vec) : Q :=
  match sample_weights with
  | Some sw => hinge_loss_weighted w b X Y sw
  | None => hinge_loss w b X Y
  end.

(** Iteration [t] of a run from [st0] computes [v]: the state after [t]
    iterations exists and [rda_quantities] succeeds on it. *)
Definition iteration_view (np_sqrt : Q -> Q) (set_iter : vec -> list Q)
    (oracle : Q -> vec -> result vec) (x : matrix) (y : vec)
    (norm_sq_constraint : Q) (clf : classifier) (epsilon : Q)
    (st0 : rda_state) (t : nat) (v : iter_view) : Prop :=
  exists st_t : rda_state,
    rda_run np_sqrt set_iter oracle x y norm_sq_constraint clf epsilon
      (seq 0 t) st0 = Ok st_t /\
    rda_quantities np_sqrt set_iter oracle x y clf epsilon (w st_t) (b st_t)
      = Ok v.

(** [np_sqrt] is the exact square root at [a]. *)
Definition sqrt_exact_at (np_sqrt : Q -> Q) (a : Q) : Prop :=
  0 <= np_sqrt a /\ np_sqrt a ^ 2 == a.

(** ** The lower bound: [svm_with_rho_squared] and [evaluate_attack] *)

(** The bounds and the current point of the bisection on [weight_decay]. *)
Record wd_search : Type := mk_wd_search {
  lower_wd_bound : Q;
  upper_wd_bound : Q;
  lower_weight_decay : Q;
  upper_weight_decay : Q;
  weight_decay : Q
}.

(** [svm_model.intercept_] of a fitted [LinearSVC]: an array, or a float
    (what scikit-learn leaves there when it fits no intercept). *)
Inductive intercept : Type :=
  | intercept_array (a : vec)
  | intercept_float (c : Q).

(** A fitted [svm.LinearSVC]: [coef_], flattened, and [intercept_]. *)
Record svm_model : Type := mk_svm_model {
  coef_ : vec;
  intercept_ : intercept
}.

(** [svm_model.intercept_[0]]: a float cannot be subscripted. *)
Definition intercept_first (i : intercept) : result Q :=
  match i with
  | intercept_array (c :: _) => Ok c
  | intercept_array [] => Raise IndexError
  | intercept_float _ => Raise TypeError
  end.

(** A trained model with its squared norm:
    [params = svm_model.coef_.reshape(-1)], [bias = svm_model.intercept_[0]],
    [params_norm_sq = np.linalg.norm(params)**2 + bias**2]. *)
Record svm_fitted : Type := mk_svm_fitted {
  fitted_model : svm_model;
  params : vec;
  bias : Q;
  fitted_norm_sq : Q
}.

(** What [svm_with_rho_squared] returns. *)
Record svm_result : Type := mk_svm_result {
  train_loss : Q;
  train_acc : Q;
  test_loss : Q;
  test_acc : Q;
  svm_params_norm_sq : Q;
  svm_weight_decay : Q;
  svm_params : vec;
  svm_bias : Q;
  svm_fitted_model : svm_model
}.

(** What [evaluate_attack] returns. *)
Record attack_result : Type := mk_attack_result {
  total_train_loss : Q;
  avg_good_train_loss : Q;
  avg_bad_train_loss : Q;
  attack_test_loss : Q;
  overall_train_acc : Q;
  good_train_acc : Q;
  bad_train_acc : Q;
  attack_test_acc : Q;
  attack_params_norm_sq : Q;
  attack_weight_decay : Q
}.

(** [A[start:stop]] for a slice with non-negative bounds. *)
Definition np_slice {A : Type} (idx : nat * nat) (l : list A) : list A :=
  take (snd idx - fst idx) (drop (fst idx) l).

Section Lower_bound.

Variable np_sqrt : Q -> Q.

(** [svm.LinearSVC(C=C, loss='hinge', fit_intercept=use_bias,
    random_state=24, ...).fit(X, Y)]: the fitted model, or the exception
    that [fit] raises (on labels of one class, for one); and
    [svm_model.score(X, Y)], which may raise as well. *)
Variable svm_fit : Q -> bool -> matrix -> vec -> result svm_model.
Variable svm_score : svm_model -> matrix -> vec -> result Q.

(** Lines 176-189: the bounds before the loop. *)
Definition wd_search_init (weight_decay : option Q) : wd_search :=
  let lower_wd_bound := 1 # 1000 in
  let upper_wd_bound :=
    match weight_decay with
    | None => 256
    | Some weight_decay =>
        let upper_wd_bound := 2 * weight_decay - lower_wd_bound in
        if Qltb upper_wd_bound lower_wd_bound then lower_wd_bound
        else upper_wd_bound
    end in
  mk_wd_search lower_wd_bound upper_wd_bound lower_wd_bound upper_wd_bound
    ((upper_wd_bound + lower_wd_bound) / 2).

(** Lines 191-238: the loop, entered when its test holds.  [None] when the
    fuel runs out; [1.0 / (X_train.shape[0] * weight_decay)] raises on a
    zero divisor, [fit] may raise, and so may [svm_model.intercept_[0]]. *)
Fixpoint wd_search_loop (fuel : nat) (X_train : matrix) (Y_train : vec)
    (upper_params_norm_sq : option Q) (use_bias : bool) (s : wd_search)
    : option (result (wd_search * svm_fitted)) :=
  match fuel with
  | O => None
  | S fuel' =>
      let divisor := inject_Z (Z.of_nat (length X_train)) * weight_decay s in
      if Qeq_bool divisor 0 then Some (Raise ZeroDivisionError) else
      let C := 1 / divisor in
      match svm_fit C use_bias X_train Y_train with
      | Raise e => Some (Raise e)
      | Ok svm_model =>
      let params := coef_ svm_model in
      match intercept_first (intercept_ svm_model) with
      | Raise e => Some (Raise e)
      | Ok bias =>
      let params_norm_sq := np_norm np_sqrt params ^ 2 + bias ^ 2 in
      let fitted := mk_svm_fitted svm_model params bias params_norm_sq in
      match upper_params_norm_sq with
      | None => Some (Ok (s, fitted))
      | Some upper =>
          let '(s1, stop) :=
            if Qltb params_norm_sq upper
            then (mk_wd_search (lower_wd_bound s) (upper_wd_bound s)
                    (lower_weight_decay s) (weight_decay s) (weight_decay s),
                  Qltb (weight_decay s) (lower_wd_bound s + (1 # 100000)))
            else
              (if Qltb (upper_wd_bound s - (1 # 100000)) (weight_decay s)
               then mk_wd_search (lower_wd_bound s) (upper_wd_bound s * 2)
                      (weight_decay s) (upper_weight_decay s * 2)
                      (weight_decay s)
               else mk_wd_search (lower_wd_bound s) (upper_wd_bound s)
                      (weight_decay s) (upper_weight_decay s)
                      (weight_decay s),
               false) in
          if stop then Some (Ok (s1, fitted)) else
          let again :=
            Qltb params_norm_sq upper
            || Qltb (1 # 100) (Qabs (upper - params_norm_sq)) in
          if again
          then wd_search_loop fuel' X_train Y_train upper_params_norm_sq
                 use_bias
                 (mk_wd_search (lower_wd_bound s1) (upper_wd_bound s1)
                    (lower_weight_decay s1) (upper_weight_decay s1)
                    ((upper_weight_decay s1 + lower_weight_decay s1) / 2))
          else Some (Ok (s1, fitted))
      end
      end
      end
  end.

(** [svm_with_rho_squared]; its argument [weight_decay] is
    [initial_weight_decay] here, the local it becomes is the field
    [weight_decay] of the search. *)
Definition svm_with_rho_squared (fuel : nat) (X_train : matrix) (Y_train : vec)
    (X_test : matrix) (Y_test : vec) (upper_params_norm_sq : option Q)
    (use_bias : bool) (initial_weight_decay : option Q)
    : option (result svm_result) :=
  match wd_search_loop fuel X_train Y_train upper_params_norm_sq use_bias
          (wd_search_init initial_weight_decay) with
  | None => None
  | Some (Raise e) => Some (Raise e)
  | Some (Ok (s, fitted)) =>
      let svm_model := fitted_model fitted in
      let train_loss :=
        hinge_loss (params fitted) (bias fitted) X_train Y_train in
      let test_loss :=
        hinge_loss (params fitted) (bias fitted) X_test Y_test in
      Some
        match svm_score svm_model X_train Y_train with
        | Raise e => Raise e
        | Ok train_acc =>
            match svm_score svm_model X_test Y_test with
            | Raise e => Raise e
            | Ok test_acc =>
                Ok (mk_svm_result train_loss train_acc test_loss test_acc
                      (fitted_norm_sq fitted) (weight_decay s)
                      (params fitted) (bias fitted) svm_model)
            end
        end
  end.

(** Lines 317-371. *)
Definition evaluate_attack (fuel : nat) (X_modified : matrix) (Y_modified : vec)
    (X_test : matrix) (Y_test : vec) (idx_train idx_poison : nat * nat)
    (epsilon : Q) (weight_decay : option Q) (upper_params_norm_sq : option Q)
    (use_bias : bool) : option (result attack_result) :=
  let X_train := np_slice idx_train X_modified in
  let Y_train := np_slice idx_train Y_modified in
  let X_poison := np_slice idx_poison X_modified in
  let Y_poison := np_slice idx_poison Y_modified in
  match svm_with_rho_squared fuel X_modified Y_modified X_test Y_test
          upper_params_norm_sq use_bias weight_decay with
  | None => None
  | Some (Raise e) => Some (Raise e)
  | Some (Ok r) =>
      let svm_model := svm_fitted_model r in
      let new_params := coef_ svm_model in
      Some
        match intercept_first (intercept_ svm_model) with
        | Raise e => Raise e
        | Ok new_bias =>
        let avg_bad_train_loss :=
          hinge_loss new_params new_bias X_poison Y_poison in
        let avg_good_train_loss :=
          hinge_loss new_params new_bias X_train Y_train in
        let params_norm_sq := np_norm np_sqrt new_params ^ 2 + new_bias ^ 2 in
        let total_train_loss :=
          hinge_loss new_params new_bias X_modified Y_modified
          * (1 + epsilon) in
        match svm_score svm_model X_modified Y_modified with
        | Raise e => Raise e
        | Ok overall_train_acc =>
        match svm_score svm_model X_poison Y_poison with
        | Raise e => Raise e
        | Ok bad_train_acc =>
        match svm_score svm_model X_train Y_train with
        | Raise e => Raise e
        | Ok good_train_acc =>
        match svm_score svm_model X_test Y_test with
        | Raise e => Raise e
        | Ok test_acc =>
            Ok (mk_attack_result total_train_loss avg_good_train_loss
                  avg_bad_train_loss
                  (hinge_loss new_params new_bias X_test Y_test)
                  overall_train_acc good_train_acc bad_train_acc test_acc
                  params_norm_sq (svm_weight_decay r))
        end
        end
        end
        end
        end
  end.

End Lower_bound.

(** The bisection state is in order:
    [0.001 = lower_wd_bound <= lower_weight_decay <= weight_decay <=
    upper_weight_decay]. *)
Definition wd_search_ordered (s : wd_search) : Prop :=
  lower_wd_bound s = 1 # 1000 /\
  1 # 1000 <= lower_weight_decay s /\
  lower_weight_decay s <= weight_decay s /\
  weight_decay s <= upper_weight_decay s.

(** [e] is raised by training: by [fit], or by [svm_model.intercept_[0]]
    on the model that [fit] returned. *)
Definition raised_by_training
    (svm_fit : Q -> bool -> matrix -> vec -> result svm_model)
    (use_bias : bool) (X : matrix) (Y : vec) (e : exn) : Prop :=
  (exists C : Q, svm_fit C use_bias X Y = Raise e) \/
  (exists (C : Q) (m : svm_model),
      svm_fit C use_bias X Y = Ok m /\
      intercept_first (intercept_ m) = Raise e).

(** The search in state [s] hands back [fitted]: the state is in order and
    [fitted] is the model trained at the weight decay of [s], with its
    parameters, its intercept and its squared norm. *)
Definition wd_search_returns (np_sqrt : Q -> Q)
    (svm_fit : Q -> bool -> matrix -> vec -> result svm_model)
    (X : matrix) (Y : vec) (use_bias : bool)
    (s : wd_search) (fitted : svm_fitted) : Prop :=
  wd_search_ordered s /\
  svm_fit (1 / (inject_Z (Z.of_nat (length X)) * weight_decay s))
    use_bias X Y = Ok (fitted_model fitted) /\
  params fitted = coef_ (fitted_model fitted) /\
  intercept_first (intercept_ (fitted_model fitted)) = Ok (bias fitted) /\
  fitted_norm_sq fitted
    = np_norm np_sqrt (params fitted) ^ 2 + bias fitted ^ 2.

(** The intercept that scikit-learn's [LinearSVC] leaves after [fit]: an
    array of one entry when it fits an intercept, a float when it does
    not. *)
Definition linear_svc_ok
    (svm_fit : Q -> bool -> matrix -> vec -> result svm_model) : Prop :=
  forall (C : Q) (use_bias : bool) (X : matrix) (Y : vec) (m : svm_model),
    svm_fit C use_bias X Y = Ok m ->
    if use_bias then exists c : Q, intercept_ m = intercept_array [c]
    else exists c : Q, intercept_ m = intercept_float c.

(** ** The reduced problems: [Minimizer] and [Projector] of
    [legacy/upper_bounds.py], lines 626-724 and 814-881 *)

(** [P.dot(v)] for a two-dimensional [P] and a one-dimensional [v]: one
    inner product per row. *)
Definition mat_vec (P : matrix) (v : vec) : vec := map (fun r => dot r v) P.

Definition np_dot_matrix_vec (P : matrix) (v : vec) : result vec :=
  if forallb (fun r => (length r =? length v)%nat) P
  then Ok (mat_vec P v)
  else Raise ValueError.

(** [x.dot(P)] for a one-dimensional [x] and a two-dimensional [P] that has
    rows: the combination of the rows of [P] with the coefficients [x]. *)
Definition vec_mat (x : vec) (P : matrix) : vec :=
  foldr vadd (zeros (ncols P)) (zip_with scal x P).

Definition np_dot_vec_matrix (x : vec) (P : matrix) : result vec :=
  if (length x =? length P)%nat then Ok (vec_mat x P) else Raise ValueError.

Module Minimizer.
Section Solve.

Variable orth_rows : matrix -> matrix.
Variable np_random_normal : nat -> nat -> vec.

(** [prob_solve y w centroid centroid_vec sphere_radius slab_radius] is the
    value of [cvx_x] after [self.prob.solve], as a one-dimensional array,
    for these values of the parameters of the problem. *)
Variable prob_solve : Q -> vec -> vec -> vec -> Q -> Q -> vec.

Definition minimize_over_feasible_set (fuel : nat) (y : Q)
    (w centroid centroid_vec : vec) (sphere_radius slab_radius : Q)
    : option (result vec) :=
  match get_projection_matrix orth_rows np_random_normal fuel
          w centroid centroid_vec with
  | None => None
  | Some P =>
      Some
        match np_dot_matrix_vec P w with
        | Raise e => Raise e
        | Ok cvx_w =>
            match np_dot_matrix_vec P centroid with
            | Raise e => Raise e
            | Ok cvx_centroid =>
                match np_dot_matrix_vec P centroid_vec with
                | Raise e => Raise e
                | Ok cvx_centroid_vec =>
                    let x_opt :=
                      prob_solve y cvx_w cvx_centroid cvx_centroid_vec
                        sphere_radius slab_radius in
                    np_dot_vec_matrix x_opt P
                end
            end
        end
  end.

End Solve.
End Minimizer.

Module Projector.
Section Solve.

Variable orth_rows : matrix -> matrix.
Variable np_random_normal : nat -> nat -> vec.

(** [prob_solve z centroid centroid_vec sphere_radius slab_radius]: the
    value of [cvx_x] after [self.prob.solve]. *)
Variable prob_solve : vec -> vec -> vec -> Q -> Q -> vec.

Definition project_onto_feasible_set (fuel : nat)
    (z centroid centroid_vec : vec) (sphere_radius slab_radius : Q)
    : option (result vec) :=
  match get_projection_matrix orth_rows np_random_normal fuel
          z centroid centroid_vec with
  | None => None
  | Some P =>
      Some
        match np_dot_matrix_vec P z with
        | Raise e => Raise e
        | Ok cvx_z =>
            match np_dot_matrix_vec P centroid with
            | Raise e => Raise e
            | Ok cvx_centroid =>
                match np_dot_matrix_vec P centroid_vec with
                | Raise e => Raise e
                | Ok cvx_centroid_vec =>
                    let x_opt :=
                      prob_solve cvx_z cvx_centroid cvx_centroid_vec
                        sphere_radius slab_radius in
                    np_dot_vec_matrix x_opt P
                end
            end
        end
  end.

End Solve.
End Projector.

(** A stand-in for the trainer, to run the search on: the coefficient is
    [C] itself, the intercept the array [[0]] when one is asked for and the
    float [0] otherwise, the score 1. *)
Definition ex_fit (C : Q) (use_bias : bool) (X : matrix) (Y : vec)
    : result svm_model :=
  Ok (mk_svm_model [C]
        (if use_bias then intercept_array [0] else intercept_float 0)).

Definition ex_score (m : svm_model) (X : matrix) (Y : vec) : result Q := Ok 1.

(** A stand-in for the solvers of the reduced problems: the point at
    distance [sphere_radius] from the centroid along the first axis. *)
Definition ex_solve (centroid : vec) (sphere_radius : Q) : vec :=
  vadd centroid [sphere_radius; 0; 0].

(** * Properties *)

(** ** Comparisons and vectors *)

Lemma Qltb_lt (a b : Q) : Qltb a b = true <-> a < b.
Proof.
  unfold Qltb. rewrite negb_true_iff, <- not_true_iff_false, Qle_bool_iff.
  split; [apply Qnot_le_lt | apply Qlt_not_le].
Qed.

Lemma Qltb_ge (a b : Q) : Qltb a b = false <-> b <= a.
Proof.
  unfold Qltb. rewrite negb_false_iff. apply Qle_bool_iff.
Qed.

Lemma dot_comm (u v : vec) : dot u v == dot v u.
Proof.
  unfold dot. revert v.
  induction u as [|a u IH]; intros [|c v]; simpl; try reflexivity.
  rewrite IH. ring.
Qed.

Lemma np_maximum_zero (a : Q) : a <= 0 -> np_maximum a 0 == 0.
Proof.
  intros Ha. unfold np_maximum.
  destruct (Qltb a 0) eqn:E; [reflexivity|].
  apply Qltb_ge in E. apply Qle_antisym; assumption.
Qed.

(** ** The worst-margin search (lines 155-165 / 472-488) *)

Section Worst_margin.

Context (minimize_over_feasible_set : Q -> vec -> result vec).
Context (w : vec) (b : Q).

Local Abbreviation worst_candidate := (worst_candidate minimize_over_feasible_set).
Local Abbreviation margin_of := (margin_of w b).
Local Abbreviation first_minimal := (first_minimal minimize_over_feasible_set w b).

(** With an incumbent: it survives when no later margin is strictly
    smaller, otherwise the first minimal later candidate replaces it. *)
Lemma worst_candidate_incumbent (labels : list Q) :
  forall (m0 y0 : Q) (x0 : vec) (res : option candidate),
    worst_candidate labels w b (Some (m0, y0, x0)) = Ok res ->
    (res = Some (m0, y0, x0) /\
     forall (j : nat) (y' : Q) (x' : vec),
       labels !! j = Some y' -> minimize_over_feasible_set y' w = Ok x' ->
       m0 <= margin_of y' x') \/
    (exists (i : nat) (y_b : Q) (x_b : vec),
        labels !! i = Some y_b /\
        minimize_over_feasible_set y_b w = Ok x_b /\
        res = Some (margin_of y_b x_b, y_b, x_b) /\
        margin_of y_b x_b < m0 /\
        first_minimal labels i (margin_of y_b x_b)).
Proof.
  induction labels as [|y1 rest IH]; intros m0 y0 x0 res H; simpl in H.
  - left. split; [congruence|]. intros j y' x' Hj. discriminate Hj.
  - destruct (minimize_over_feasible_set y1 w) as [x1|e] eqn:Hx1; [|discriminate].
    fold (margin_of y1 x1) in H.
    destruct (Qltb (margin_of y1 x1) m0) eqn:Hlt.
    + apply Qltb_lt in Hlt.
      destruct (IH _ _ _ _ H) as [[-> Hall]|(i & yi & xi & Hi & Hxi & -> & Hlti & Hmin & Hfirst)].
      * right. exists 0%nat, y1, x1. repeat split; auto.
        -- intros [|j] y' x' Hj Hx'; simpl in Hj.
           ++ injection Hj as <-. rewrite Hx1 in Hx'. injection Hx' as <-.
              apply Qle_refl.
           ++ eapply Hall; eauto.
        -- intros j y' x' Hj. lia.
      * right. exists (S i), yi, xi. repeat split; auto.
        -- eapply Qlt_trans; eauto.
        -- intros [|j] y' x' Hj Hx'; simpl in Hj.
           ++ injection Hj as <-. rewrite Hx1 in Hx'. injection Hx' as <-.
              apply Qlt_le_weak; assumption.
           ++ eapply Hmin; eauto.
        -- intros [|j] y' x' Hji Hj Hx'; simpl in Hj.
           ++ injection Hj as <-. rewrite Hx1 in Hx'. injection Hx' as <-.
              assumption.
           ++ eapply Hfirst; eauto. lia.
    + apply Qltb_ge in Hlt.
      destruct (IH _ _ _ _ H) as [[-> Hall]|(i & yi & xi & Hi & Hxi & -> & Hlti & Hmin & Hfirst)].
      * left. split; [reflexivity|].
        intros [|j] y' x' Hj Hx'; simpl in Hj.
        -- injection Hj as <-. rewrite Hx1 in Hx'. injection Hx' as <-.
           assumption.
        -- eapply Hall; eauto.
      * right. exists (S i), yi, xi. repeat split; auto.
        -- intros [|j] y' x' Hj Hx'; simpl in Hj.
           ++ injection Hj as <-. rewrite Hx1 in Hx'. injection Hx' as <-.
              apply Qlt_le_weak. eapply Qlt_le_trans; eauto.
           ++ eapply Hmin; eauto.
        -- intros [|j] y' x' Hji Hj Hx'; simpl in Hj.
           ++ injection Hj as <-. rewrite Hx1 in Hx'. injection Hx' as <-.
              eapply Qlt_le_trans; eauto.
           ++ eapply Hfirst; eauto. lia.
Qed.

(** The search succeeds only if the oracle answered for every label. *)
Lemma worst_candidate_oracle_ok (labels : list Q) :
  forall (acc res : option candidate),
    worst_candidate labels w b acc = Ok res ->
    forall y' : Q, In y' labels ->
      exists x' : vec, minimize_over_feasible_set y' w = Ok x'.
Proof.
  induction labels as [|y1 rest IH]; intros acc res H y' Hin; simpl in *.
  - contradiction.
  - destruct (minimize_over_feasible_set y1 w) as [x1|e] eqn:Hx1; [|discriminate].
    destruct Hin as [<-|Hin]; [eauto|].
    eapply IH; eauto.
Qed.

(** Without labels the search finds nothing; with labels and an oracle that
    answers, it finds a candidate. *)
Lemma worst_candidate_some (labels : list Q) :
  labels <> [] ->
  (forall y' : Q, In y' labels ->
     exists x' : vec, minimize_over_feasible_set y' w = Ok x') ->
  exists c : candidate, worst_candidate labels w b None = Ok (Some c).
Proof.
  assert (G : forall (l : list Q) (c0 : candidate),
             (forall y', In y' l -> exists x', minimize_over_feasible_set y' w = Ok x') ->
             exists c, worst_candidate l w b (Some c0) = Ok (Some c)).
  { induction l as [|y1 rest IH]; intros c0 Hall; simpl.
    - eauto.
    - destruct (Hall y1 (or_introl eq_refl)) as [x1 ->].
      destruct c0 as [[m0 y0] x0].
      destruct (Qltb _ m0); apply IH; intros; apply Hall; right; assumption. }
  destruct labels as [|y1 rest]; [congruence|]. intros _ Hall. simpl.
  destruct (Hall y1 (or_introl eq_refl)) as [x1 ->].
  apply G. intros; apply Hall; right; assumption.
Qed.

(** The selected candidate, with its position in the enumeration. *)
Lemma worst_candidate_selected (labels : list Q) (m y_b : Q) (x_b : vec) :
  worst_candidate labels w b None = Ok (Some (m, y_b, x_b)) ->
  exists i : nat,
    labels !! i = Some y_b /\
    minimize_over_feasible_set y_b w = Ok x_b /\
    m = margin_of y_b x_b /\
    first_minimal labels i m.
Proof.
  intros H.
  destruct labels as [|y1 rest]; simpl in H; [discriminate|].
  destruct (minimize_over_feasible_set y1 w) as [x1|e] eqn:Hx1; [|discriminate].
  fold (margin_of y1 x1) in H.
  destruct (worst_candidate_incumbent _ _ _ _ _ H)
    as [[E Hge]|(i & yi & xi & Hi & Hxi & E & Hlti & Hmin & Hfirst)].
  - injection E as -> -> ->. exists 0%nat. repeat split; auto.
    + intros [|j] y' x' Hj Hx'; simpl in Hj.
      * injection Hj as <-. rewrite Hx1 in Hx'. injection Hx' as <-.
        apply Qle_refl.
      * eapply Hge; eauto.
    + intros j y' x' Hj. lia.
  - injection E as -> -> ->. exists (S i). repeat split; auto.
    + intros [|j] y' x' Hj Hx'; simpl in Hj.
      * injection Hj as <-. rewrite Hx1 in Hx'. injection Hx' as <-.
        apply Qlt_le_weak; assumption.
      * eapply Hmin; eauto.
    + intros [|j] y' x' Hji Hj Hx'; simpl in Hj.
      * injection Hj as <-. rewrite Hx1 in Hx'. injection Hx' as <-.
        assumption.
      * eapply Hfirst; eauto. lia.
Qed.

(** C5.  The pair the search selects is the candidate of an enumerated
    label, its margin is [label * (w.x + b)] and is minimal over all
    enumerated labels, and every label enumerated before it has a strictly
    larger margin: among equal minimal margins the first one is kept. *)
Theorem worst_candidate_first_minimal (labels : list Q) (m y_b : Q) (x_b : vec) :
  worst_candidate labels w b None = Ok (Some (m, y_b, x_b)) ->
  exists i : nat,
    labels !! i = Some y_b /\
    minimize_over_feasible_set y_b w = Ok x_b /\
    m = y_b * (dot w x_b + b) /\
    (forall (j : nat) (y' : Q), labels !! j = Some y' ->
       exists x' : vec,
         minimize_over_feasible_set y' w = Ok x' /\
         m <= y' * (dot w x' + b)) /\
    (forall (j : nat) (y' : Q) (x' : vec), (j < i)%nat ->
       labels !! j = Some y' -> minimize_over_feasible_set y' w = Ok x' ->
       m < y' * (dot w x' + b)).
Proof.
  intros H.
  pose proof (worst_candidate_oracle_ok _ _ _ H) as Hok.
  destruct (worst_candidate_selected _ _ _ _ H)
    as (i & Hi & Hx & Hm & Hmin & Hfirst).
  exists i. repeat split; auto.
  intros j y' Hj.
  destruct (Hok y') as [x' Hx'].
  - apply list_elem_of_In. eapply list_elem_of_lookup_2; eauto.
  - exists x'. split; [assumption|]. eapply Hmin; eauto.
Qed.

End Worst_margin.

(** ** The certification loop *)

Section Run.

Context (np_sqrt : Q -> Q) (set_iter : vec -> list Q).
Context (minimize_over_feasible_set : Q -> vec -> result vec).
Context (x : matrix) (y : vec).
Context (norm_sq_constraint learning_rate : Q) (max_iter : nat).

Local Abbreviation rda_quantities :=
  (rda_quantities np_sqrt set_iter minimize_over_feasible_set x y).
Local Abbreviation dual_averaging := (dual_averaging np_sqrt norm_sq_constraint).
Local Abbreviation rda_init := (rda_init x learning_rate max_iter).
Local Abbreviation rda_run :=
  (rda_run np_sqrt set_iter minimize_over_feasible_set x y norm_sq_constraint).
Local Abbreviation cert_rda_step :=
  (cert_rda_step np_sqrt set_iter minimize_over_feasible_set x y
     norm_sq_constraint).
Local Abbreviation cert_rda_loop :=
  (cert_rda_loop np_sqrt set_iter minimize_over_feasible_set x y
     norm_sq_constraint).
Local Abbreviation cert_rda :=
  (cert_rda np_sqrt set_iter minimize_over_feasible_set x y
     norm_sq_constraint learning_rate max_iter).
Local Abbreviation legacy_step :=
  (legacy_step np_sqrt set_iter minimize_over_feasible_set x y
     norm_sq_constraint).
Local Abbreviation legacy_loop :=
  (legacy_loop np_sqrt set_iter minimize_over_feasible_set x y
     norm_sq_constraint).

(** *** Both loops follow [rda_run] *)

Lemma cert_rda_loop_state (clf : classifier) (epsilon best : Q) (idxs : list nat) :
  forall (self : Self.t) (st : rda_state),
    snd (cert_rda_loop clf epsilon best idxs self st)
    = rda_run clf epsilon idxs st.
Proof.
  induction idxs as [|i rest IH]; intros self st; simpl; [reflexivity|].
  unfold cert_rda_step.
  destruct (rda_quantities clf epsilon (w st) (b st)) as [v|e]; simpl;
    [apply IH | reflexivity].
Qed.

Lemma legacy_loop_state (epsilon : Q) (idxs : list nat) :
  forall (bst : Legacy.best) (st : rda_state),
    match legacy_loop epsilon idxs bst st with
    | Ok (_, st') => rda_run hinge_classifier epsilon idxs st = Ok st'
    | Raise e => rda_run hinge_classifier epsilon idxs st = Raise e
    end.
Proof.
  induction idxs as [|i rest IH]; intros bst st; simpl; [reflexivity|].
  unfold legacy_step.
  destruct (rda_quantities hinge_classifier epsilon (w st) (b st)) as [v|e];
    simpl; [apply IH | reflexivity].
Qed.

Lemma rda_run_app (clf : classifier) (epsilon : Q) (l1 l2 : list nat) :
  forall st : rda_state,
    rda_run clf epsilon (l1 ++ l2) st
    = match rda_run clf epsilon l1 st with
      | Ok st' => rda_run clf epsilon l2 st'
      | Raise e => Raise e
      end.
Proof.
  induction l1 as [|i rest IH]; intros st; simpl; [reflexivity|].
  destruct (rda_quantities clf epsilon (w st) (b st)); [apply IH | reflexivity].
Qed.

Lemma cert_rda_loop_app (clf : classifier) (epsilon best : Q) (l1 l2 : list nat) :
  forall (self : Self.t) (st : rda_state),
    cert_rda_loop clf epsilon best (l1 ++ l2) self st
    = match cert_rda_loop clf epsilon best l1 self st with
      | (self', Ok st') => cert_rda_loop clf epsilon best l2 self' st'
      | (self', Raise e) => (self', Raise e)
      end.
Proof.
  induction l1 as [|i rest IH]; intros self st; simpl; [reflexivity|].
  destruct (cert_rda_step clf epsilon best i self st) as [self' [st'|e]];
    [apply IH | reflexivity].
Qed.

Lemma legacy_loop_app (epsilon : Q) (l1 l2 : list nat) :
  forall (bst : Legacy.best) (st : rda_state),
    legacy_loop epsilon (l1 ++ l2) bst st
    = match legacy_loop epsilon l1 bst st with
      | Ok (bst', st') => legacy_loop epsilon l2 bst' st'
      | Raise e => Raise e
      end.
Proof.
  induction l1 as [|i rest IH]; intros bst st; simpl; [reflexivity|].
  destruct (legacy_step epsilon i bst st) as [[bst' st']|e];
    [apply IH | reflexivity].
Qed.

(** A run of [k] iterations passed through a state after [j <= k] of them. *)
Lemma rda_run_prefix (clf : classifier) (epsilon : Q) (j k : nat)
    (st0 st_k : rda_state) :
  (j <= k)%nat ->
  rda_run clf epsilon (seq 0 k) st0 = Ok st_k ->
  exists st_j : rda_state,
    rda_run clf epsilon (seq 0 j) st0 = Ok st_j /\
    rda_run clf epsilon (seq j (k - j)) st_j = Ok st_k.
Proof.
  intros Hjk H.
  replace k with (j + (k - j))%nat in H by lia.
  rewrite seq_app, rda_run_app in H. simpl in H.
  destruct (rda_run clf epsilon (seq 0 j) st0) as [st_j|e]; [|discriminate].
  eauto.
Qed.

(** *** The dual-averaging update (lines 213-225 / 545-556) *)

Lemma dual_averaging_ratchet (v : iter_view) (i : nat) (st : rda_state) :
  current_lambda st <= current_lambda (dual_averaging v i st).
Proof.
  unfold dual_averaging; simpl.
  match goal with |- _ <= (if Qltb ?a ?c then _ else _) =>
    destruct (Qltb a c) eqn:E end.
  - apply Qltb_lt in E. apply Qlt_le_weak; assumption.
  - apply Qle_refl.
Qed.

Lemma dual_averaging_averaged (v : iter_view) (i : nat) (st : rda_state) :
  averaged (dual_averaging v i st).
Proof. split; reflexivity. Qed.

Lemma rda_run_ratchet (clf : classifier) (epsilon : Q) (idxs : list nat) :
  forall st st' : rda_state,
    rda_run clf epsilon idxs st = Ok st' ->
    current_lambda st <= current_lambda st'.
Proof.
  induction idxs as [|i rest IH]; intros st st' H; simpl in H.
  - injection H as <-. apply Qle_refl.
  - destruct (rda_quantities clf epsilon (w st) (b st)) as [v|e]; [|discriminate].
    eapply Qle_trans; [apply dual_averaging_ratchet | eapply IH; eauto].
Qed.

Lemma rda_run_averaged (clf : classifier) (epsilon : Q) (idxs : list nat) :
  forall st st' : rda_state,
    rda_run clf epsilon idxs st = Ok st' ->
    idxs <> [] -> averaged st'.
Proof.
  induction idxs as [|i rest IH]; intros st st' H Hne; [congruence|].
  simpl in H.
  destruct (rda_quantities clf epsilon (w st) (b st)) as [v|e]; [|discriminate].
  destruct rest as [|i' rest'].
  - simpl in H. injection H as <-. apply dual_averaging_averaged.
  - eapply IH; [eassumption | discriminate].
Qed.

Lemma rda_run_ratchet_between (clf : classifier) (epsilon : Q) (j k : nat)
    (init_w : vec) (init_b : Q) (st_j st_k : rda_state) :
  (j <= k)%nat ->
  rda_run clf epsilon (seq 0 j) (rda_init init_w init_b) = Ok st_j ->
  rda_run clf epsilon (seq 0 k) (rda_init init_w init_b) = Ok st_k ->
  1 / learning_rate <= current_lambda st_j /\
  current_lambda st_j <= current_lambda st_k /\
  ((0 < k)%nat -> averaged st_k).
Proof.
  intros Hjk Hj Hk. split; [|split].
  - apply (rda_run_ratchet _ _ _ _ _ Hj).
  - destruct (rda_run_prefix _ _ _ _ _ _ Hjk Hk) as (st_j' & Hj' & Hrest).
    rewrite Hj in Hj'. injection Hj' as <-.
    apply (rda_run_ratchet _ _ _ _ _ Hrest).
  - intros Hpos. eapply rda_run_averaged; eauto.
    destruct k; [lia|]. rewrite seq_S. intros E.
    apply app_eq_nil in E. destruct E; discriminate.
Qed.

(** C3.  In both variants, for the states [st_j], [st_k] reached after
    [j <= k] iterations of a run: [current_lambda] starts from
    [1 / learning_rate] and never decreases
    ([1 / learning_rate <= current_lambda st_j <= current_lambda st_k]), and
    after every update the model is the accumulated sum over the scale
    ([w = sum_of_grads_w / current_lambda], [b = sum_of_grads_b /
    current_lambda]). *)
Theorem current_lambda_ratchet (clf : classifier) (epsilon : Q) (j k : nat)
    (init_w : vec) (init_b : Q) (st_j st_k : rda_state) :
  (j <= k)%nat ->
  (forall (best : Q) (self self_j self_k : Self.t),
      cert_rda_loop clf epsilon best (seq 0 j) self (rda_init init_w init_b)
        = (self_j, Ok st_j) ->
      cert_rda_loop clf epsilon best (seq 0 k) self (rda_init init_w init_b)
        = (self_k, Ok st_k) ->
      1 / learning_rate <= current_lambda st_j /\
      current_lambda st_j <= current_lambda st_k /\
      ((0 < k)%nat -> averaged st_k)) /\
  (forall bst_j bst_k : Legacy.best,
      legacy_loop epsilon (seq 0 j) Legacy.init (rda_init init_w init_b)
        = Ok (bst_j, st_j) ->
      legacy_loop epsilon (seq 0 k) Legacy.init (rda_init init_w init_b)
        = Ok (bst_k, st_k) ->
      1 / learning_rate <= current_lambda st_j /\
      current_lambda st_j <= current_lambda st_k /\
      ((0 < k)%nat -> averaged st_k)).
Proof.
  intros Hjk. split.
  - intros best self self_j self_k Hj Hk.
    apply (f_equal snd) in Hj, Hk. rewrite cert_rda_loop_state in Hj, Hk.
    simpl in Hj, Hk. eapply rda_run_ratchet_between; eauto.
  - intros bst_j bst_k Hj Hk.
    pose proof (legacy_loop_state epsilon (seq 0 j) Legacy.init
                  (rda_init init_w init_b)) as Sj.
    pose proof (legacy_loop_state epsilon (seq 0 k) Legacy.init
                  (rda_init init_w init_b)) as Sk.
    rewrite Hj in Sj. rewrite Hk in Sk.
    eapply rda_run_ratchet_between; eauto.
Qed.

(** *** One iteration (lines 142-196 / 459-519) *)

(** What [rda_quantities] returns, field by field. *)
Lemma rda_quantities_ok (clf : classifier) (epsilon : Q) (w0 : vec) (b0 : Q)
    (v : iter_view) :
  rda_quantities clf epsilon w0 b0 = Ok v ->
  worst_candidate minimize_over_feasible_set (set_iter y) w0 b0 None
    = Ok (Some (worst_margin v, worst_y_b v, worst_x_b v)) /\
  (grad_w v, grad_b v)
    = (if Qltb (worst_margin v) 1
       then (vsub (fst (loss_grad clf x y w0 b0))
               (scal (epsilon * worst_y_b v) (worst_x_b v)),
             snd (loss_grad clf x y w0 b0) - epsilon * worst_y_b v)
       else loss_grad clf x y w0 b0) /\
  bad_loss v = loss_point clf (worst_x_b v) (worst_y_b v) w0 b0 /\
  good_loss v = loss clf x y w0 b0 /\
  total_loss v = good_loss v + epsilon * bad_loss v.
Proof.
  unfold rda_quantities. intros H.
  destruct (loss_grad clf x y w0 b0) as [gw gb].
  destruct (worst_candidate _ _ _ _ _) as [[[[m yb] xb]|]|e]; try discriminate.
  simpl. destruct (Qltb m 1) eqn:E; injection H as <-; simpl; rewrite E; auto.
Qed.

(** C4.  In an iteration that selected the worst candidate
    [(worst_margin, worst_y_b, worst_x_b)]: if [worst_margin < 1] the
    gradient used by the update is the clean gradient with
    [epsilon * worst_y_b * worst_x_b] subtracted from [grad_w] and
    [epsilon * worst_y_b] from [grad_b]; if [worst_margin >= 1] it is the
    clean gradient unchanged, and the adversarial loss of the iteration
    under the hinge loss (the only loss of the legacy variant) is zero. *)
Theorem attack_point_folded_below_one (clf : classifier) (epsilon : Q)
    (w0 : vec) (b0 : Q) (v : iter_view) :
  rda_quantities clf epsilon w0 b0 = Ok v ->
  worst_candidate minimize_over_feasible_set (set_iter y) w0 b0 None
    = Ok (Some (worst_margin v, worst_y_b v, worst_x_b v)) /\
  (worst_margin v < 1 ->
     grad_w v = vsub (fst (loss_grad clf x y w0 b0))
                  (scal (epsilon * worst_y_b v) (worst_x_b v)) /\
     grad_b v = snd (loss_grad clf x y w0 b0) - epsilon * worst_y_b v) /\
  (1 <= worst_margin v ->
     grad_w v = fst (loss_grad clf x y w0 b0) /\
     grad_b v = snd (loss_grad clf x y w0 b0) /\
     (loss_point clf = loss_point hinge_classifier -> bad_loss v == 0)).
Proof.
  intros H.
  destruct (rda_quantities_ok _ _ _ _ _ H) as (Hsel & Hgrad & Hbad & _ & _).
  split; [assumption|]. split.
  - intros Hlt. apply Qltb_lt in Hlt. rewrite Hlt in Hgrad.
    injection Hgrad as -> ->. split; reflexivity.
  - intros Hge. pose proof Hge as Hge'. apply Qltb_ge in Hge'.
    rewrite Hge' in Hgrad.
    destruct (loss_grad clf x y w0 b0) as [gw gb].
    injection Hgrad as -> ->. repeat split.
    intros Hhinge. rewrite Hbad, Hhinge. simpl. unfold hinge_loss_point.
    destruct (worst_candidate_selected _ _ _ _ _ _ _ Hsel)
      as (i & _ & _ & Hm & _).
    apply np_maximum_zero. unfold margin_of in Hm.
    rewrite (dot_comm (worst_x_b v) w0), <- Hm. lra.
Qed.

(** *** The best bound with [epsilon = 0] (lines 196-201 / 519-524) *)

Lemma cert_rda_record_same_number (epsilon best : Q) (v : iter_view)
    (st : rda_state) (self : Self.t) :
  epsilon == 0 ->
  total_loss v = good_loss v + epsilon * bad_loss v ->
  same_number (Self.best_upper_bound self) (Self.best_upper_good_loss self) ->
  same_number
    (Self.best_upper_bound (cert_rda_record x y best v st self))
    (Self.best_upper_good_loss (cert_rda_record x y best v st self)).
Proof.
  intros He Ht Hself. unfold cert_rda_record.
  destruct (Qltb (total_loss v) best); [|assumption].
  simpl. rewrite Ht, He. ring.
Qed.

Lemma cert_rda_loop_same_number (clf : classifier) (epsilon best : Q)
    (idxs : list nat) :
  epsilon == 0 ->
  forall (self : Self.t) (st : rda_state),
    same_number (Self.best_upper_bound self) (Self.best_upper_good_loss self) ->
    let self' := fst (cert_rda_loop clf epsilon best idxs self st) in
    same_number (Self.best_upper_bound self') (Self.best_upper_good_loss self').
Proof.
  intros He. induction idxs as [|i rest IH]; intros self st Hself; simpl;
    [assumption|].
  unfold cert_rda_step.
  destruct (rda_quantities clf epsilon (w st) (b st)) as [v|e] eqn:Hv;
    [|assumption].
  apply IH. apply (cert_rda_record_same_number epsilon); auto.
  apply (rda_quantities_ok _ _ _ _ _ Hv).
Qed.

Lemma legacy_loop_bound_is_good (epsilon : Q) (idxs : list nat) :
  epsilon == 0 ->
  forall (bst bst' : Legacy.best) (st st' : rda_state),
    legacy_bound_is_good bst ->
    legacy_loop epsilon idxs bst st = Ok (bst', st') ->
    legacy_bound_is_good bst'.
Proof.
  intros He. induction idxs as [|i rest IH]; intros bst bst' st st' Hb H;
    simpl in H.
  - injection H as <- <-. assumption.
  - unfold legacy_step in H.
    destruct (rda_quantities hinge_classifier epsilon (w st) (b st))
      as [v|e] eqn:Hv; [|discriminate].
    eapply IH; [|eassumption].
    unfold legacy_record. destruct (Qltb (total_loss v) _); [|assumption].
    unfold legacy_bound_is_good. simpl.
    destruct (rda_quantities_ok _ _ _ _ _ Hv) as (_ & _ & _ & _ & ->).
    rewrite He. ring.
Qed.

(** C6.  With [epsilon = 0] the recorded best bound is the recorded clean
    loss: on the object, [best_upper_bound] and [best_upper_good_loss] are
    both unset or equal after [cert_rda] whenever they were before (as on a
    fresh object), and the legacy function returns a [best_upper_bound]
    equal to its [best_upper_good_loss]. *)
Theorem epsilon_zero_bound_is_good_loss (clf : classifier) (start_w : vec)
    (np_random_choice : Z -> Z -> result (list nat)) (epsilon : Q) :
  epsilon == 0 ->
  (forall self : Self.t,
      same_number (Self.best_upper_bound self) (Self.best_upper_good_loss self) ->
      let self' := fst (cert_rda clf start_w epsilon self) in
      same_number (Self.best_upper_bound self')
        (Self.best_upper_good_loss self')) /\
  (forall (num_iter_to_throw_out : nat) (init_w : vec) (init_b : Q)
          (out : Legacy.output),
      generate_upper_and_lower_bounds np_sqrt set_iter
        minimize_over_feasible_set x y norm_sq_constraint learning_rate
        max_iter np_random_choice epsilon num_iter_to_throw_out init_w init_b
        = Ok out ->
      Legacy.out_best_upper_bound out == Legacy.out_best_upper_good_loss out).
Proof.
  intros He. split.
  - intros self Hself. unfold cert_rda.
    destruct (Qeq_bool learning_rate 0); [assumption|].
    pose proof (cert_rda_loop_same_number clf epsilon 10000 (seq 0 max_iter)
                  He self (rda_init (zeros (length start_w)) 0) Hself) as L.
    destruct (cert_rda_loop _ _ _ _ _ _) as [self1 [st|e]]; simpl in *;
      assumption.
  - intros throw init_w init_b out H.
    unfold generate_upper_and_lower_bounds in H.
    destruct (Qeq_bool learning_rate 0); [discriminate|].
    destruct (legacy_loop _ _ _ _) as [[bst st]|e] eqn:Hloop; [|discriminate].
    destruct (sample_lower_bound_attack _ _ _ _ _ _ _)
      as [[[[Xm Ym] it] ip]|e]; [|discriminate].
    assert (G : legacy_bound_is_good bst).
    { eapply legacy_loop_bound_is_good; [exact He| |exact Hloop]. exact I. }
    unfold legacy_bound_is_good in G.
    destruct (Legacy.best_upper_good_loss bst) as [gl|]; [|discriminate].
    destruct (Legacy.best_upper_bad_loss bst); [|discriminate].
    destruct (Legacy.best_upper_good_acc bst); [|discriminate].
    destruct (Legacy.best_upper_bad_acc bst); [|discriminate].
    destruct (Legacy.best_upper_params_norm_sq bst); [|discriminate].
    injection H as <-. simpl. assumption.
Qed.

(** *** The attack-point trace (lines 108-109, 183-185, 227-229) *)

(** After [k] iterations the trace arrays keep their length, and every row
    [t < k] holds the worst point and label selected at iteration [t]. *)
Lemma rda_run_trace (clf : classifier) (epsilon : Q) (st0 : rda_state) :
  forall (k : nat) (st_k : rda_state),
    rda_run clf epsilon (seq 0 k) st0 = Ok st_k ->
    length (x_bs st_k) = length (x_bs st0) /\
    length (y_bs st_k) = length (y_bs st0) /\
    forall t : nat, (t < k)%nat ->
      exists (st_t : rda_state) (v : iter_view),
        rda_run clf epsilon (seq 0 t) st0 = Ok st_t /\
        rda_quantities clf epsilon (w st_t) (b st_t) = Ok v /\
        ((t < length (x_bs st0))%nat -> x_bs st_k !! t = Some (worst_x_b v)) /\
        ((t < length (y_bs st0))%nat -> y_bs st_k !! t = Some (worst_y_b v)).
Proof.
  induction k as [|k IH]; intros st_k H.
  - simpl in H. injection H as <-. repeat split; auto. intros t Ht; lia.
  - rewrite seq_S, rda_run_app in H. simpl in H.
    destruct (rda_run clf epsilon (seq 0 k) st0) as [st|e] eqn:Hk; [|discriminate].
    destruct (rda_quantities clf epsilon (w st) (b st)) as [v|e] eqn:Hv;
      [|discriminate].
    injection H as <-.
    destruct (IH st eq_refl) as (Lx & Ly & Hrows).
    unfold dual_averaging; simpl. rewrite !length_insert.
    repeat split; auto.
    intros t Ht. destruct (decide (t = k)) as [->|Hne].
    + exists st, v. repeat split; auto.
      * intros Hlen. apply list_lookup_insert_eq. lia.
      * intros Hlen. apply list_lookup_insert_eq. lia.
    + destruct (Hrows t ltac:(lia)) as (st_t & v_t & Ht1 & Ht2 & Hx & Hy).
      exists st_t, v_t. repeat split; auto.
      * intros Hlen. rewrite list_lookup_insert_ne by auto. auto.
      * intros Hlen. rewrite list_lookup_insert_ne by auto. auto.
Qed.

(** C8.  After a completed [cert_rda] with [max_iter = N], the saved trace
    [x_c], [y_c] has exactly [N] entries; the entry at [t] is the worst
    point and label that iteration [t] selected from the state reached
    after [t] iterations; and it already stood there, unchanged, in the
    trace of every state reached after [k > t] iterations. *)
Theorem trace_complete (clf : classifier) (start_w : vec) (epsilon : Q)
    (self self' : Self.t) (ret : option Q * option Q * option Q) :
  cert_rda clf start_w epsilon self = (self', Ok ret) ->
  exists (xs : matrix) (ys : vec),
    Self.x_c self' = Some xs /\ Self.y_c self' = Some ys /\
    length xs = max_iter /\ length ys = max_iter /\
    forall t : nat, (t < max_iter)%nat ->
      exists (self_t : Self.t) (st_t : rda_state) (v : iter_view),
        cert_rda_loop clf epsilon 10000 (seq 0 t) self
          (rda_init (zeros (length start_w)) 0) = (self_t, Ok st_t) /\
        rda_quantities clf epsilon (w st_t) (b st_t) = Ok v /\
        xs !! t = Some (worst_x_b v) /\ ys !! t = Some (worst_y_b v) /\
        forall (k : nat) (self_k : Self.t) (st_k : rda_state),
          (t < k)%nat ->
          cert_rda_loop clf epsilon 10000 (seq 0 k) self
            (rda_init (zeros (length start_w)) 0) = (self_k, Ok st_k) ->
          x_bs st_k !! t = Some (worst_x_b v) /\
          y_bs st_k !! t = Some (worst_y_b v).
Proof.
  unfold cert_rda. intros H.
  destruct (Qeq_bool learning_rate 0); [discriminate|].
  set (st0 := rda_init (zeros (length start_w)) 0) in *.
  destruct (cert_rda_loop clf epsilon 10000 (seq 0 max_iter) self st0)
    as [self1 [st|e]] eqn:Hloop; [|discriminate].
  injection H as <- _.
  pose proof (cert_rda_loop_state clf epsilon 10000 (seq 0 max_iter) self st0)
    as Hrun.
  rewrite Hloop in Hrun. simpl in Hrun. symmetry in Hrun.
  assert (Lx0 : length (x_bs st0) = max_iter) by apply length_replicate.
  assert (Ly0 : length (y_bs st0) = max_iter) by apply length_replicate.
  destruct (rda_run_trace clf epsilon st0 max_iter st Hrun) as (Lx & Ly & Hrows).
  exists (x_bs st), (y_bs st). simpl.
  repeat split; try congruence.
  intros t Ht.
  destruct (Hrows t Ht) as (st_t & v & Ht1 & Ht2 & Hx & Hy).
  pose proof (cert_rda_loop_state clf epsilon 10000 (seq 0 t) self st0) as Hrt.
  destruct (cert_rda_loop clf epsilon 10000 (seq 0 t) self st0)
    as [self_t r_t] eqn:Hloop_t.
  simpl in Hrt. rewrite Ht1 in Hrt. subst r_t.
  exists self_t, st_t, v. repeat split; auto.
  - apply Hx. lia.
  - apply Hy. lia.
  - pose proof (cert_rda_loop_state clf epsilon 10000 (seq 0 k) self st0) as Hrk.
    rewrite H0 in Hrk. simpl in Hrk. symmetry in Hrk.
    destruct (rda_run_trace clf epsilon st0 k st_k Hrk) as (_ & _ & Hrows_k).
    destruct (Hrows_k t H) as (st_t' & v' & Ht1' & Ht2' & Hx' & _).
    rewrite Ht1 in Ht1'. injection Ht1' as <-.
    rewrite Ht2 in Ht2'. injection Ht2' as <-.
    apply Hx'. lia.
  - pose proof (cert_rda_loop_state clf epsilon 10000 (seq 0 k) self st0) as Hrk.
    rewrite H0 in Hrk. simpl in Hrk. symmetry in Hrk.
    destruct (rda_run_trace clf epsilon st0 k st_k Hrk) as (_ & _ & Hrows_k).
    destruct (Hrows_k t H) as (st_t' & v' & Ht1' & Ht2' & _ & Hy').
    rewrite Ht1 in Ht1'. injection Ht1' as <-.
    rewrite Ht2 in Ht2'. injection Ht2' as <-.
    apply Hy'. lia.
Qed.

(** *** The best bound across iterations (lines 196-207 / 519-530) *)

(** The legacy overwrite lowers the bound, to at most this iteration's
    total loss, and only when that loss is strictly below it. *)
Lemma legacy_record_bound (v : iter_view) (st : rda_state) (bst : Legacy.best) :
  let bst' := legacy_record x y v st bst in
  Legacy.best_upper_bound bst' <= Legacy.best_upper_bound bst /\
  Legacy.best_upper_bound bst' <= total_loss v /\
  (bst' = bst \/
   (total_loss v < Legacy.best_upper_bound bst /\
    Legacy.best_upper_bound bst' = total_loss v)).
Proof.
  unfold legacy_record.
  destruct (Qltb (total_loss v) (Legacy.best_upper_bound bst)) eqn:E; simpl.
  - apply Qltb_lt in E. repeat split; auto using Qlt_le_weak, Qle_refl.
  - apply Qltb_ge in E. repeat split; auto using Qle_refl.
Qed.

Lemma legacy_loop_bound_le (epsilon : Q) (idxs : list nat) :
  forall (bst bst' : Legacy.best) (st st' : rda_state),
    legacy_loop epsilon idxs bst st = Ok (bst', st') ->
    Legacy.best_upper_bound bst' <= Legacy.best_upper_bound bst.
Proof.
  induction idxs as [|i rest IH]; intros bst bst' st st' H; simpl in H.
  - injection H as <- <-. apply Qle_refl.
  - unfold legacy_step in H.
    destruct (rda_quantities hinge_classifier epsilon (w st) (b st)) as [v|e];
      [|discriminate].
    eapply Qle_trans; [eapply IH; eassumption|].
    apply legacy_record_bound.
Qed.

Lemma legacy_loop_prefix (epsilon : Q) (j k : nat) (bst0 bst_k : Legacy.best)
    (st0 st_k : rda_state) :
  (j <= k)%nat ->
  legacy_loop epsilon (seq 0 k) bst0 st0 = Ok (bst_k, st_k) ->
  exists (bst_j : Legacy.best) (st_j : rda_state),
    legacy_loop epsilon (seq 0 j) bst0 st0 = Ok (bst_j, st_j) /\
    legacy_loop epsilon (seq j (k - j)) bst_j st_j = Ok (bst_k, st_k).
Proof.
  intros Hjk H.
  replace k with (j + (k - j))%nat in H by lia.
  rewrite seq_app, legacy_loop_app in H. simpl in H.
  destruct (legacy_loop epsilon (seq 0 j) bst0 st0) as [[bst_j st_j]|e];
    [|discriminate].
  eauto.
Qed.

(** In [generate_upper_and_lower_bounds] the recorded best total loss never
    increases, and after [k] iterations it is at most the total loss of
    each of them (the last one included). *)
Lemma legacy_best_bound_nonincreasing (epsilon : Q) (j k : nat)
    (bst0 bst_j bst_k : Legacy.best) (st0 st_j st_k : rda_state) :
  (j <= k)%nat ->
  legacy_loop epsilon (seq 0 j) bst0 st0 = Ok (bst_j, st_j) ->
  legacy_loop epsilon (seq 0 k) bst0 st0 = Ok (bst_k, st_k) ->
  Legacy.best_upper_bound bst_k <= Legacy.best_upper_bound bst_j /\
  forall t : nat, (t < k)%nat ->
    exists (bst_t : Legacy.best) (st_t : rda_state) (v : iter_view),
      legacy_loop epsilon (seq 0 t) bst0 st0 = Ok (bst_t, st_t) /\
      rda_quantities hinge_classifier epsilon (w st_t) (b st_t) = Ok v /\
      Legacy.best_upper_bound bst_k <= total_loss v.
Proof.
  intros Hjk Hj Hk. split.
  - destruct (legacy_loop_prefix _ _ _ _ _ _ _ Hjk Hk) as (bj & sj & Hj' & Hrest).
    rewrite Hj in Hj'. injection Hj' as <- <-.
    eapply legacy_loop_bound_le; eauto.
  - intros t Ht.
    destruct (legacy_loop_prefix epsilon (S t) k _ _ _ _ ltac:(lia) Hk)
      as (b1 & s1 & H1 & Hrest).
    rewrite seq_S, legacy_loop_app in H1. simpl in H1.
    destruct (legacy_loop epsilon (seq 0 t) bst0 st0) as [[bt stt]|e];
      [|discriminate].
    unfold legacy_step in H1.
    destruct (rda_quantities hinge_classifier epsilon (w stt) (b stt))
      as [v|e] eqn:Hv; [|discriminate].
    injection H1 as <- <-.
    exists bt, stt, v. repeat split; auto.
    eapply Qle_trans; [eapply legacy_loop_bound_le; eassumption|].
    apply legacy_record_bound.
Qed.

(** In [cert_rda] the comparison is against the local that stays at its
    initial value: whatever the object holds, an iteration whose total loss
    is below that value overwrites the record with its own losses. *)
Lemma cert_rda_record_overwrites (best : Q) (v : iter_view) (st : rda_state)
    (self : Self.t) :
  total_loss v < best ->
  Self.best_upper_bound (cert_rda_record x y best v st self)
    = Some (total_loss v) /\
  Self.best_upper_good_loss (cert_rda_record x y best v st self)
    = Some (good_loss v) /\
  Self.best_upper_bad_loss (cert_rda_record x y best v st self)
    = Some (bad_loss v).
Proof.
  intros H. apply Qltb_lt in H. unfold cert_rda_record. rewrite H.
  repeat split.
Qed.

(** Line 231: the triple [cert_rda] returns is read off the object, and its
    second component is the clean accuracy. *)
Lemma cert_rda_returns_attributes (clf : classifier) (start_w : vec)
    (epsilon : Q) (self self' : Self.t) (ret : option Q * option Q * option Q) :
  cert_rda clf start_w epsilon self = (self', Ok ret) ->
  ret = (Self.best_upper_bound self', Self.best_upper_good_acc self',
         Self.best_upper_bad_loss self').
Proof.
  unfold cert_rda. intros H.
  destruct (Qeq_bool learning_rate 0); [discriminate|].
  destruct (cert_rda_loop _ _ _ _ _ _) as [self1 [st|e]]; [|discriminate].
  injection H as <- <-. reflexivity.
Qed.

End Run.

(** ** [sample_lower_bound_attack] (lines 111-129) *)

Section Sampling.

Context (np_random_choice : Z -> Z -> result (list nat)).

Local Abbreviation sample_lower_bound_attack :=
  (sample_lower_bound_attack np_random_choice).





End Sampling.

(** ** [get_projection_matrix] (lines 598-623) *)


(** ** Inner products and sums of rows *)

Lemma dot_zeros_l (D : nat) (u : vec) : dot (zeros D) u == 0.
Proof.
  unfold dot, zeros. revert u.
  induction D as [|D IH]; intros [|c u]; simpl; try reflexivity.
  rewrite IH. ring.
Qed.

Lemma dot_scal_l (c : Q) (v u : vec) : dot (scal c v) u == c * dot v u.
Proof.
  unfold dot, scal. revert u.
  induction v as [|a v IH]; intros [|e u]; simpl; try ring.
  rewrite IH. ring.
Qed.

Lemma dot_vadd_l (a r u : vec) :
  length a = length r -> dot (vadd a r) u == dot a u + dot r u.
Proof.
  unfold dot, vadd. revert r u.
  induction a as [|a0 a IH]; intros [|r0 r] [|e u] H; simpl in *;
    try discriminate; try ring.
  rewrite IH by lia. ring.
Qed.

Lemma length_sum_rows (D : nat) (rows : matrix) :
  Forall (fun r => length r = D) rows ->
  length (foldr vadd (zeros D) rows) = D.
Proof.
  induction 1 as [|r rows Hr _ IH]; simpl.
  - apply length_replicate.
  - unfold vadd at 1. rewrite length_zip_with, IH, Hr. lia.
Qed.

Lemma dot_nil_r (x : vec) : dot x [] == 0.
Proof. destruct x; reflexivity. Qed.

Lemma dot_Qeq_r (x u v : vec) : Forall2 Qeq u v -> dot x u == dot x v.
Proof.
  intros H. revert x. unfold dot.
  induction H as [|a c u v Hac _ IH]; intros [|e x]; simpl; try reflexivity.
  rewrite Hac, IH. reflexivity.
Qed.

Lemma scaled_rows (D : nat) (x : vec) (P : matrix) :
  Forall (fun r => length r = D) P ->
  Forall (fun r => length r = D) (zip_with scal x P).
Proof.
  intros HF. revert x.
  induction HF as [|r P Hr _ IH]; intros [|a x]; simpl; constructor.
  - unfold scal. rewrite length_map. exact Hr.
  - apply IH.
Qed.

(** ** Combinations of rows *)
















Section Projection_facts.

Context (orth_rows : matrix -> matrix) (np_random_normal : nat -> nat -> vec).
Context (D : nat).
Context (Hdraw : forall k : nat, length (np_random_normal k D) = D).

Local Abbreviation pad_loop := (pad_loop orth_rows np_random_normal).
Local Abbreviation padded := (padded orth_rows np_random_normal).
Local Abbreviation orth_call := (orth_call orth_rows np_random_normal D).
Local Abbreviation get_projection_matrix :=
  (get_projection_matrix orth_rows np_random_normal).
Local Abbreviation projection_rows := (projection_rows D).



(** What the loop returns is the matrix of some test, has at least three
    rows, and every earlier test found fewer. *)
Lemma pad_loop_padded (P0 : matrix) (fuel : nat) :
  forall (calls : nat) (R : matrix),
    pad_loop fuel D calls (padded D P0 calls) = Some R ->
    exists k : nat,
      (k <= fuel)%nat /\ R = padded D P0 (calls + k) /\
      (3 <= length R)%nat /\
      forall j : nat, (j < k)%nat ->
        (length (padded D P0 (calls + j)) < 3)%nat.
Proof.
  induction fuel as [|fuel IH]; intros calls R H; simpl in H.
  - destruct (Nat.ltb_spec (length (padded D P0 calls)) 3); [discriminate|].
    injection H as <-. exists 0%nat. rewrite Nat.add_0_r.
    repeat split; auto; try lia; intros; lia.
  - destruct (Nat.ltb_spec (length (padded D P0 calls)) 3) as [Hlt|Hge].
    + destruct (IH (S calls) R H) as (k & Hk & E & L & Hj).
      exists (S k). split; [lia|].
      replace (calls + S k)%nat with (S calls + k)%nat by lia.
      split; [exact E|]. split; [exact L|].
      intros [|j] Hlt'; [rewrite Nat.add_0_r; exact Hlt|].
      replace (calls + S j)%nat with (S calls + j)%nat by lia.
      apply Hj. lia.
    + injection H as <-. exists 0%nat. rewrite Nat.add_0_r.
      repeat split; auto; try lia; intros; lia.
Qed.

Section Run.

Context (w centroid centroid_vec : vec).
Context (Lw : length w = D) (Lc : length centroid = D).
Context (Lv : length centroid_vec = D).

Local Abbreviation P0 := (orth_rows [w; centroid; centroid_vec]).

(** As long as every test so far found fewer than three rows and [orth]
    kept its contract, the rows are at most three, of dimension [D] and
    orthonormal. *)
Lemma padded_rows (k : nat) :
  (forall j : nat, (j <= k)%nat ->
     orth_ok D orth_rows (orth_call w centroid centroid_vec j)) ->
  (forall j : nat, (j < k)%nat -> (length (padded D P0 j) < 3)%nat) ->
  projection_rows (padded D P0 k).
Proof.
  induction k as [|k IH]; intros Hok Hlt.
  - destruct (Hok 0%nat (Nat.le_refl _)) as (L & Fd & Ho & _).
    split; [exact L|]. split; assumption.
  - destruct (Hok (S k) (Nat.le_refl _)) as (L & Fd & Ho & _).
    specialize (Hlt k (Nat.lt_succ_diag_r _)).
    split; [|split; assumption].
    unfold orth_call in L. rewrite length_app in L. simpl in L.
    simpl. lia.
Qed.


(** Whatever [get_projection_matrix] returns has exactly three orthonormal
    rows of dimension [D]. *)
Lemma get_projection_matrix_rows (fuel : nat) (P : matrix) :
  (forall k : nat, (k <= fuel)%nat ->
     orth_ok D orth_rows (orth_call w centroid centroid_vec k)) ->
  get_projection_matrix fuel w centroid centroid_vec = Some P ->
  length P = 3%nat /\ Forall (fun r => length r = D) P /\ orthonormal P.
Proof.
  intros Hok H. unfold get_projection_matrix in H. rewrite Lw in H.
  destruct (pad_loop_padded P0 fuel 0 P H) as (k & Hk & -> & L3 & Hlt).
  simpl in *.
  destruct (padded_rows k) as (L & Fd & Ho).
  - intros j Hj. apply Hok. lia.
  - exact Hlt.
  - repeat split; auto. lia.
Qed.

End Run.


End Projection_facts.

(** * The instance: evaluations *)


(** C1.  [cert_rda] on the instance with [epsilon = 1/2]: iteration 0 has
    total loss [3/2] and records it; iteration 1 has the larger total loss
    [61/40] and overwrites the record with it, so the recorded best bound
    increases, and the call returns [61/40] although [3/2] was seen.  The
    legacy function, on the same input, returns [3/2]. *)
Theorem cert_rda_best_bound_increases :
  in_lowest_terms
    (Self.best_upper_bound (fst (ex_loop interval_oracle (1 # 2) 1)))
    = Some (3 # 2) /\
  in_lowest_terms
    (Self.best_upper_bound (fst (ex_loop interval_oracle (1 # 2) 2)))
    = Some (61 # 40) /\
  3 # 2 < 61 # 40 /\
  (exists self' total acc bad,
      ex_cert_rda interval_oracle 2 (1 # 2) Self.init
        = (self', Ok (total, acc, bad)) /\
      in_lowest_terms total = Some (61 # 40)) /\
  (exists out,
      ex_legacy 2 (1 # 2) 1 = Ok out /\
      Qred (Legacy.out_best_upper_bound out) = 3 # 2).
Proof.
  split; [vm_compute; reflexivity|].
  split; [vm_compute; reflexivity|].
  split; [reflexivity|].
  split.
  - do 4 eexists. split; vm_compute; reflexivity.
  - eexists. split; vm_compute; reflexivity.
Qed.

(** C2.  [certify] on the instance with one iteration per run.  For
    [epsilons = [1/2]] the second returned array holds the clean accuracy
    of the best bound ([0]), not its clean loss ([1]), which stays on the
    object.  In the sweep [[1/2; 20000]] no iteration of the second run is
    below the initial bound 10000, so its entries are the first run's,
    left on the object; certified alone, [20000] gives nan in the three
    arrays. *)
Theorem certify_returns_accuracy_and_shares_state :
  (exists self' total_loss good_loss bad_loss,
      ex_certify 1 [1 # 2] = (self', Ok (total_loss, good_loss, bad_loss)) /\
      map in_lowest_terms good_loss = [Some 0] /\
      in_lowest_terms (Self.best_upper_good_acc self') = Some 0 /\
      in_lowest_terms (Self.best_upper_good_loss self') = Some 1) /\
  (exists self' total_loss good_loss bad_loss,
      ex_certify 1 [1 # 2; 20000]
        = (self', Ok (total_loss, good_loss, bad_loss)) /\
      map in_lowest_terms total_loss = [Some (3 # 2); Some (3 # 2)] /\
      map in_lowest_terms good_loss = [Some 0; Some 0] /\
      map in_lowest_terms bad_loss = [Some 1; Some 1]) /\
  snd (ex_certify 1 [20000]) = Ok ([None], [None], [None]).
Proof.
  split; [|split].
  - do 4 eexists. repeat split; vm_compute; reflexivity.
  - do 4 eexists. repeat split; vm_compute; reflexivity.
  - vm_compute. reflexivity.
Qed.

(** C7.  [cert_rda] on the instance with the solver that fails at the
    second iteration: the call raises, and the object that was fresh before
    the call now holds the best bound of the first iteration, while the
    trace attributes are still unset. *)
Theorem cert_rda_abort_leaves_best_bound :
  exists self',
    ex_cert_rda flaky_oracle 2 (1 # 2) Self.init = (self', Raise SolverError) /\
    Self.best_upper_bound Self.init = None /\
    in_lowest_terms (Self.best_upper_bound self') = Some (3 # 2) /\
    in_lowest_terms (Self.best_upper_good_loss self') = Some 1 /\
    in_lowest_terms (Self.best_upper_bad_loss self') = Some 1 /\
    Self.x_c self' = None /\ Self.y_c self' = None.
Proof.
  eexists. repeat split; vm_compute; reflexivity.
Qed.

(** C3 on the instance: the states after one and two iterations. *)
Lemma current_lambda_ratchet_example :
  exists self_1 st_1 self_2 st_2,
    ex_loop interval_oracle (1 # 2) 1 = (self_1, Ok st_1) /\
    ex_loop interval_oracle (1 # 2) 2 = (self_2, Ok st_2) /\
    1 / (1 # 10) <= current_lambda st_1 /\
    current_lambda st_1 <= current_lambda st_2 /\
    ((0 < 2)%nat -> averaged st_2).
Proof.
  do 4 eexists.
  split; [vm_compute; reflexivity|].
  split; [vm_compute; reflexivity|].
  refine (proj1 (current_lambda_ratchet sqrt_floor first_occurrences
                   interval_oracle ex_x ex_y 1 (1 # 10) 2 hinge_classifier
                   (1 # 2) 1 2 (zeros 1) 0 _ _ _)
            10000 Self.init _ _ _ _).
  - lia.
  - vm_compute. reflexivity.
  - vm_compute. reflexivity.
Defined.

(** C4 on the instance: the first iteration, worst margin 0. *)
Lemma attack_point_folded_example :
  exists v,
    rda_quantities sqrt_floor first_occurrences interval_oracle ex_x ex_y
      hinge_classifier (1 # 2) [0] 0 = Ok v /\
    worst_margin v < 1 /\
    grad_w v = vsub (fst (hinge_grad [0] 0 ex_x ex_y))
                 (scal ((1 # 2) * worst_y_b v) (worst_x_b v)) /\
    grad_b v = snd (hinge_grad [0] 0 ex_x ex_y) - (1 # 2) * worst_y_b v.
Proof.
  eexists. split; [vm_compute; reflexivity|].
  split; [vm_compute; reflexivity|].
  refine (proj1 (proj2 (attack_point_folded_below_one sqrt_floor
                          first_occurrences interval_oracle ex_x ex_y
                          hinge_classifier (1 # 2) [0] 0 _ _)) _).
  - vm_compute. reflexivity.
  - vm_compute. reflexivity.
Defined.

(** C5 on the instance: at zero weights both labels have margin 0 and the
    first enumerated one is kept. *)
Lemma worst_candidate_first_minimal_example :
  exists i : nat,
    [1; -1 # 1] !! i = Some 1 /\
    interval_oracle 1 [0] = Ok [1] /\
    0 = 1 * (dot [0] [1] + 0) /\
    (forall (j : nat) (y' : Q), [1; -1 # 1] !! j = Some y' ->
       exists x' : vec,
         interval_oracle y' [0] = Ok x' /\
         0 <= y' * (dot [0] x' + 0)) /\
    (forall (j : nat) (y' : Q) (x' : vec), (j < i)%nat ->
       [1; -1 # 1] !! j = Some y' -> interval_oracle y' [0] = Ok x' ->
       0 < y' * (dot [0] x' + 0)).
Proof.
  apply (worst_candidate_first_minimal interval_oracle [0] 0
           [1; -1 # 1] 0 1 [1]).
  vm_compute. reflexivity.
Defined.

(** C6 on the instance: [epsilon = 0] on a fresh object, and the legacy
    function. *)
Lemma epsilon_zero_example :
  (let self' := fst (ex_cert_rda interval_oracle 2 0 Self.init) in
   same_number (Self.best_upper_bound self') (Self.best_upper_good_loss self')) /\
  (exists out,
      ex_legacy 2 0 1 = Ok out /\
      Legacy.out_best_upper_bound out == Legacy.out_best_upper_good_loss out).
Proof.
  pose proof (epsilon_zero_bound_is_good_loss sqrt_floor first_occurrences
                interval_oracle ex_x ex_y 1 (1 # 10) 2 hinge_classifier [0]
                choice_first 0 (Qeq_refl 0)) as [Hobj Hleg].
  split.
  - apply (Hobj Self.init). exact I.
  - eexists. split; [vm_compute; reflexivity|].
    apply (Hleg 1%nat [0] 0). vm_compute. reflexivity.
Defined.

(** C8 on the instance: two iterations, two trace entries. *)
Lemma trace_complete_example :
  exists self' ret,
    ex_cert_rda interval_oracle 2 (1 # 2) Self.init = (self', Ok ret) /\
    Self.x_c self' = Some [[1]; [2]] /\
    Self.y_c self' = Some [1; -1 # 1] /\
    exists xs ys,
      Self.x_c self' = Some xs /\ Self.y_c self' = Some ys /\
      length xs = 2%nat /\ length ys = 2%nat.
Proof.
  do 2 eexists. split; [vm_compute; reflexivity|].
  split; [vm_compute; reflexivity|].
  split; [vm_compute; reflexivity|].
  destruct (trace_complete sqrt_floor first_occurrences interval_oracle
              ex_x ex_y 1 (1 # 10) 2 hinge_classifier [0] (1 # 2) Self.init
              _ _ eq_refl)
    as (xs & ys & Hx & Hy & Lx & Ly & _).
  exists xs, ys. repeat split; assumption.
Defined.

(** Checking the contract of [orth] on a concrete call. *)
Lemma orth_ok_intro (D : nat) (orth_rows : matrix -> matrix) (M M' P : matrix) :
  M = M' -> orth_rows M' = P ->
  (length P <= length M')%nat ->
  Forall (fun r => length r = D) P -> orthonormal P ->
  Forall (in_span D M') P -> Forall (in_span D P) M' ->
  orth_ok D orth_rows M.
Proof.
  intros -> <- HL HF HO H1 H2. repeat split; assumption.
Qed.

Ltac solve_orthonormal :=
  let i := fresh "i" in let j := fresh "j" in
  let Hi := fresh "Hi" in let Hj := fresh "Hj" in
  intros i j ? ? Hi Hj;
  destruct i as [|[|[|i]]]; simpl in Hi; try discriminate Hi;
  destruct j as [|[|[|j]]]; simpl in Hj; try discriminate Hj;
  injection Hi as <-; injection Hj as <-; vm_compute; reflexivity.

Ltac solve_span c :=
  exists c; split;
  [ reflexivity
  | cbv [lin_comb zip_with foldr vadd scal zeros replicate map];
    repeat (constructor; [vm_compute; reflexivity|]);
    constructor ].







(** Without a draw outside the span the padding never gets anywhere: in
    dimension 3, on the zero vectors, zero draws leave the loop running. *)
Lemma get_projection_matrix_needs_new_directions (fuel : nat) :
  get_projection_matrix orth_axis (fun _ D => zeros D) fuel
    [0; 0; 0] [0; 0; 0] [0; 0; 0] = None.
Proof.
  unfold get_projection_matrix.
  change (orth_axis [[0; 0; 0]; [0; 0; 0]; [0; 0; 0]]) with (@nil (list Q)).
  generalize 0%nat. induction fuel as [|fuel IH]; intros calls; simpl;
    [reflexivity|].
  change (orth_axis [[0; 0; 0]]) with (@nil (list Q)). apply IH.
Qed.





(** * Further properties of the code *)

(** ** Sums, means and dot products *)

Lemma np_sum_nonneg (l : vec) : Forall (fun a => 0 <= a) l -> 0 <= np_sum l.
Proof.
  induction 1 as [|a l Ha _ IH]; simpl; [apply Qle_refl|]. lra.
Qed.

Lemma np_sum_zero_iff (l : vec) :
  Forall (fun a => 0 <= a) l ->
  (np_sum l == 0 <-> Forall (fun a => a == 0) l).
Proof.
  induction 1 as [|a l Ha Hl IH]; simpl.
  - split; [constructor | reflexivity].
  - pose proof (np_sum_nonneg l Hl) as Hs. split.
    + intros E. constructor; [lra|]. apply IH. lra.
    + intros F. inversion F as [|? ? E0 F']; subst.
      apply IH in F'. lra.
Qed.

Lemma np_sum_app (l1 l2 : vec) : np_sum (l1 ++ l2) == np_sum l1 + np_sum l2.
Proof.
  induction l1 as [|a l1 IH]; simpl; [ring|]. rewrite IH. ring.
Qed.

Lemma np_sum_le (l1 l2 : vec) :
  Forall2 Qle l1 l2 -> np_sum l1 <= np_sum l2.
Proof.
  induction 1 as [|a c l1 l2 Hac _ IH]; simpl; [apply Qle_refl|]. lra.
Qed.

Lemma np_sum_eq (l1 l2 : vec) :
  Forall2 Qeq l1 l2 -> np_sum l1 == np_sum l2.
Proof.
  induction 1 as [|a c l1 l2 Hac _ IH]; simpl; [reflexivity|].
  rewrite Hac, IH. reflexivity.
Qed.

Lemma length_positive {A : Type} (l : list A) :
  l <> [] -> 0 < inject_Z (Z.of_nat (length l)).
Proof.
  intros Hl. destruct l; [congruence|].
  change 0 with (inject_Z 0). rewrite <- Zlt_Qlt. simpl length. lia.
Qed.

Lemma np_maximum_nonneg (a : Q) : 0 <= np_maximum a 0.
Proof.
  unfold np_maximum. destruct (Qltb a 0) eqn:E; [apply Qle_refl|].
  apply Qltb_ge in E. assumption.
Qed.

Lemma np_maximum_ge (a : Q) : a <= np_maximum a 0.
Proof.
  unfold np_maximum. destruct (Qltb a 0) eqn:E; [|apply Qle_refl].
  apply Qltb_lt in E. apply Qlt_le_weak. assumption.
Qed.

Lemma np_maximum_zero_iff (a : Q) : np_maximum a 0 == 0 <-> a <= 0.
Proof.
  split; [|apply np_maximum_zero].
  intros E. rewrite <- E. apply np_maximum_ge.
Qed.

Lemma np_maximum_pos (a : Q) : 0 < a -> np_maximum a 0 = a.
Proof.
  intros Ha. unfold np_maximum. destruct (Qltb a 0) eqn:E; [|reflexivity].
  apply Qltb_lt in E. lra.
Qed.

(** ** The hinge loss (lines 11-38) *)

Lemma length_margins (w : vec) (b : Q) (X : matrix) (Y : vec) :
  length X = length Y -> length (margins w b X Y) = length X.
Proof.
  intros H. unfold margins. rewrite length_zip_with. lia.
Qed.

Lemma hinge_loss_nonneg (w : vec) (b : Q) (X : matrix) (Y : vec) :
  X <> [] -> length X = length Y -> 0 <= hinge_loss w b X Y.
Proof.
  intros HX HL. unfold hinge_loss, np_mean.
  set (hs := map (fun m => np_maximum (1 - m) 0) (margins w b X Y)).
  assert (Hn : 0 < inject_Z (Z.of_nat (length hs))).
  { apply length_positive. unfold hs. intros E.
    apply (f_equal length) in E.
    rewrite length_map, length_margins in E by assumption.
    destruct X; [congruence|discriminate]. }
  assert (Hnn : Forall (fun a => 0 <= a) hs).
  { unfold hs. apply Forall_map, Forall_forall. intros m _.
    apply np_maximum_nonneg. }
  pose proof (np_sum_nonneg hs Hnn) as Hs.
  apply Qle_shift_div_l; [assumption|]. lra.
Qed.

(** X1.  On a non-empty data set the hinge loss is never negative, and it
    is zero exactly when every margin [y * (x.w + b)] is at least 1. *)
Theorem hinge_loss_nonneg_zero (w : vec) (b : Q) (X : matrix) (Y : vec) :
  X <> [] -> length X = length Y ->
  0 <= hinge_loss w b X Y /\
  (hinge_loss w b X Y == 0 <-> Forall (fun m => 1 <= m) (margins w b X Y)).
Proof.
  intros HX HL. unfold hinge_loss, np_mean.
  set (ms := margins w b X Y).
  set (hs := map (fun m => np_maximum (1 - m) 0) ms).
  assert (Hn : 0 < inject_Z (Z.of_nat (length hs))).
  { apply length_positive. unfold hs, ms. intros E.
    apply (f_equal length) in E. rewrite length_map, length_margins in E by assumption.
    destruct X; [congruence|discriminate]. }
  assert (Hnn : Forall (fun a => 0 <= a) hs).
  { unfold hs. apply Forall_map, Forall_forall. intros m _. apply np_maximum_nonneg. }
  pose proof (np_sum_nonneg hs Hnn) as Hs.
  split.
  - apply Qle_shift_div_l; [assumption|]. lra.
  - split.
    + intros E.
      assert (E0 : np_sum hs == 0).
      { apply Qmult_integral in E. destruct E as [E|E]; [assumption|].
        exfalso. apply Qinv_lt_0_compat in Hn. lra. }
      apply np_sum_zero_iff in E0; [|assumption].
      unfold hs in E0. apply Forall_map in E0.
      eapply Forall_impl; [exact E0|]. simpl. intros m Hm.
      apply np_maximum_zero_iff in Hm. lra.
    + intros F.
      assert (E0 : np_sum hs == 0).
      { apply np_sum_zero_iff; [assumption|]. unfold hs. apply Forall_map.
        eapply Forall_impl; [exact F|]. simpl. intros m Hm.
        apply np_maximum_zero. lra. }
      unfold Qdiv. rewrite E0. ring.
Qed.

(** X1 on the instance: at zero weights the loss is positive, no margin
    reaches 1. *)
Lemma hinge_loss_nonneg_zero_example :
  0 <= hinge_loss [0] 0 ex_x ex_y /\
  (hinge_loss [0] 0 ex_x ex_y == 0 <->
   Forall (fun m => 1 <= m) (margins [0] 0 ex_x ex_y)).
Proof.
  apply (hinge_loss_nonneg_zero [0] 0 ex_x ex_y); [discriminate|reflexivity].
Defined.

Lemma map_replicate {A B : Type} (f : A -> B) (n : nat) (a : A) :
  map f (replicate n a) = replicate n (f a).
Proof. induction n as [|n IH]; simpl; [reflexivity|]. rewrite IH. reflexivity. Qed.

Lemma np_sum_replicate (n : nat) (c : Q) :
  np_sum (replicate n c) == inject_Z (Z.of_nat n) * c.
Proof.
  induction n as [|n IH]; [simpl; ring|].
  cbn [replicate np_sum foldr]. fold (np_sum (replicate n c)).
  rewrite IH, Nat2Z.inj_succ. unfold Z.succ. rewrite inject_Z_plus. ring.
Qed.

Lemma np_sum_zip_replicate (hs : vec) :
  forall (n : nat) (q : Q),
    (length hs <= n)%nat ->
    np_sum (zip_with Qmult (replicate n q) hs) == q * np_sum hs.
Proof.
  induction hs as [|h hs IH]; intros n q Hn.
  - destruct n; simpl; ring.
  - destruct n as [|n]; [simpl in Hn; lia|].
    cbn [replicate zip_with np_sum foldr].
    fold (np_sum (zip_with Qmult (replicate n q) hs)). fold (np_sum hs).
    rewrite IH by (simpl in Hn; lia). ring.
Qed.

Lemma np_sum_scal (k : Q) (l : vec) : np_sum (scal k l) == k * np_sum l.
Proof.
  induction l as [|a l IH]; simpl; [ring|].
  fold (np_sum (scal k l)). fold (np_sum l). rewrite IH. ring.
Qed.

Lemma zip_with_mult_eq (l1 l2 : vec) :
  Forall2 Qeq l1 l2 ->
  forall hs : vec,
    Forall2 Qeq (zip_with Qmult l1 hs) (zip_with Qmult l2 hs).
Proof.
  induction 1 as [|a c l1 l2 Hac _ IH]; intros [|h hs]; simpl; constructor.
  - rewrite Hac. reflexivity.
  - apply IH.
Qed.

(** X2.  The sample weights of [hinge_loss] only matter through their
    proportions: multiplying all of them by a nonzero factor leaves the loss
    unchanged, and equal nonzero weights give the unweighted loss. *)
Theorem hinge_loss_weights_normalised (w : vec) (b : Q) (X : matrix) (Y : vec) :
  (forall (sample_weights : vec) (k : Q),
      ~ k == 0 -> ~ np_sum sample_weights == 0 ->
      hinge_loss_opt w b X Y (Some (scal k sample_weights))
      == hinge_loss_opt w b X Y (Some sample_weights)) /\
  (forall c : Q,
      ~ c == 0 -> X <> [] -> length X = length Y ->
      hinge_loss_opt w b X Y (Some (replicate (length X) c))
      == hinge_loss_opt w b X Y None).
Proof.
  split.
  - intros sw k Hk Hs. simpl. unfold hinge_loss_weighted.
    apply np_sum_eq, zip_with_mult_eq.
    assert (G : forall (s s' : Q) (l : vec),
               ~ s == 0 -> s' == k * s ->
               Forall2 Qeq (vdiv (scal k l) s') (vdiv l s)).
    { intros s s' l Hs0 Hs'. induction l as [|a l IH]; simpl; constructor;
        [|exact IH].
      rewrite Hs'. field. split; assumption. }
    apply G; [assumption|apply np_sum_scal].
  - intros c Hc HX HL. simpl. unfold hinge_loss_weighted, hinge_loss, np_mean.
    set (hs := map (fun m => np_maximum (1 - m) 0) (margins w b X Y)).
    assert (Lh : length hs = length X).
    { unfold hs. rewrite length_map. apply length_margins. assumption. }
    unfold vdiv. rewrite map_replicate.
    rewrite np_sum_zip_replicate by lia.
    rewrite np_sum_replicate, Lh.
    pose proof (length_positive X HX) as Hn.
    field. split; first [assumption | lra].
Qed.

(** X2 on the instance. *)
Lemma hinge_loss_weights_example :
  hinge_loss_opt [1 # 2] 0 ex_x ex_y (Some (scal 3 [1; 2]))
  == hinge_loss_opt [1 # 2] 0 ex_x ex_y (Some [1; 2]) /\
  hinge_loss_opt [1 # 2] 0 ex_x ex_y (Some (replicate (length ex_x) 5))
  == hinge_loss_opt [1 # 2] 0 ex_x ex_y None.
Proof.
  destruct (hinge_loss_weights_normalised [1 # 2] 0 ex_x ex_y) as [Hs Hu].
  split.
  - apply Hs; vm_compute; discriminate.
  - apply Hu; [vm_compute; discriminate|discriminate|reflexivity].
Defined.

(** ** The hinge gradient (lines 42-77) *)

Lemma dot_vdiv_l (v : vec) (n : Q) (u : vec) : dot (vdiv v n) u == dot v u / n.
Proof.
  unfold dot, vdiv. revert u.
  induction v as [|a v IH]; intros [|e u]; simpl; unfold Qdiv; try ring.
  rewrite IH. unfold Qdiv. ring.
Qed.

Lemma dot_vsub_r (v u1 u2 : vec) :
  length u1 = length u2 -> dot v (vsub u1 u2) == dot v u1 - dot v u2.
Proof.
  unfold dot, vsub. revert u1 u2.
  induction v as [|a v IH]; intros [|c1 u1] [|c2 u2] H; simpl in *;
    try discriminate; try ring.
  rewrite IH by lia. ring.
Qed.

Lemma margins_zip (w : vec) (b : Q) (X : matrix) (Y : vec) :
  margins w b X Y
  = map (fun p => snd p * (dot (fst p) w + b)) (zip X Y).
Proof.
  unfold margins. revert Y.
  induction X as [|x X IH]; intros [|y Y]; simpl; try reflexivity.
  rewrite IH. reflexivity.
Qed.

Lemma Forall_zip_fst {A B : Type} (P : A -> Prop) (l : list A) (k : list B) :
  Forall P l -> Forall (fun p => P (fst p)) (zip l k).
Proof.
  intros H. revert k. induction H as [|a l Ha _ IH]; intros [|c k]; simpl;
    constructor; auto.
Qed.

(** X3.  On a non-empty data set with one label per row, where no clean
    point violates the margin (every margin is at least 1, the hinge loss
    is zero), [hinge_grad] returns the zero vector of dimension
    [X.shape[1]] and a zero intercept gradient. *)
Theorem hinge_grad_zero_without_violators (w : vec) (b : Q) (X : matrix) (Y : vec) :
  X <> [] -> length X = length Y ->
  Forall (fun m => 1 <= m) (margins w b X Y) ->
  length (fst (hinge_grad w b X Y)) = ncols X /\
  Forall (fun g => g == 0) (fst (hinge_grad w b X Y)) /\
  snd (hinge_grad w b X Y) == 0.
Proof.
  intros _ _ H. unfold hinge_grad. rewrite margins_zip in H.
  apply (proj1 (Forall_map _ _ _)) in H.
  assert (E : List.filter (fun p => Qltb (snd p * (dot (fst p) w + b)) 1)
                (zip X Y) = []).
  { induction H as [|p l Hp _ IH]; [reflexivity|]. simpl.
    apply Qltb_ge in Hp. rewrite Hp. exact IH. }
  rewrite E. simpl. split; [|split].
  - unfold vdiv. rewrite length_map. apply length_replicate.
  - unfold vdiv, zeros. apply Forall_map, Forall_forall. intros a Ha.
    apply elem_of_replicate in Ha. destruct Ha as [-> _]. simpl.
    unfold Qdiv. ring.
  - unfold Qdiv. ring.
Qed.

(** X3 on a point already classified with margin 2. *)
Lemma hinge_grad_zero_example :
  length (fst (hinge_grad [2] 0 ex_x ex_y)) = ncols ex_x /\
  Forall (fun g => g == 0) (fst (hinge_grad [2] 0 ex_x ex_y)) /\
  snd (hinge_grad [2] 0 ex_x ex_y) == 0.
Proof.
  apply (hinge_grad_zero_without_violators [2] 0 ex_x ex_y);
    [discriminate|reflexivity|].
  repeat constructor; vm_compute; discriminate.
Defined.

(** The sum form of the subgradient inequality, over the zipped points. *)
Lemma hinge_subgradient_sum (D : nat) (w w' : vec) (b b' : Q)
    (pts : list (list Q * Q)) :
  length w = D -> length w' = D ->
  Forall (fun p => length (fst p) = D) pts ->
  let sv := List.filter (fun p => Qltb (snd p * (dot (fst p) w + b)) 1) pts in
  np_sum (map (fun p => np_maximum (1 - snd p * (dot (fst p) w + b)) 0) pts)
  + dot (foldr vadd (zeros D) (map (fun p => scal (- snd p) (fst p)) sv))
      (vsub w' w)
  + np_sum (map (fun p => - snd p) sv) * (b' - b)
  <= np_sum (map (fun p => np_maximum (1 - snd p * (dot (fst p) w' + b')) 0) pts).
Proof.
  intros Lw Lw' Hpts. simpl.
  induction Hpts as [|[x y] pts Hx Hpts IH]; simpl.
  - rewrite dot_zeros_l. lra.
  - pose proof (dot_vsub_r x w' w ltac:(congruence)) as Hd.
    pose proof (np_maximum_ge (1 - y * (dot x w' + b'))) as Hge'.
    pose proof (np_maximum_nonneg (1 - y * (dot x w' + b'))) as Hnn'.
    destruct (Qltb (y * (dot x w + b)) 1) eqn:E; simpl.
    + apply Qltb_lt in E.
      rewrite (np_maximum_pos (1 - y * (dot x w + b))) by lra.
      rewrite dot_vadd_l.
      * rewrite dot_scal_l, Hd.
        fold (np_sum (map (fun p => np_maximum (1 - snd p * (dot (fst p) w + b)) 0) pts)) in *.
        fold (np_sum (map (fun p => np_maximum (1 - snd p * (dot (fst p) w' + b')) 0) pts)) in *.
        fold (np_sum (map (fun p : list Q * Q => - snd p)
                        (List.filter (fun p => Qltb (snd p * (dot (fst p) w + b)) 1) pts))) in *.
        lra.
      * unfold scal. rewrite length_map, length_sum_rows; [assumption|].
        apply Forall_map, Forall_forall. intros p Hp. simpl.
        unfold scal. rewrite length_map.
        apply list_elem_of_In, filter_In in Hp. destruct Hp as [Hp _].
        rewrite Forall_forall in Hpts. apply Hpts, list_elem_of_In, Hp.
    + apply Qltb_ge in E.
      pose proof (np_maximum_zero (1 - y * (dot x w + b)) ltac:(lra)) as Hz.
      fold (np_sum (map (fun p => np_maximum (1 - snd p * (dot (fst p) w + b)) 0) pts)) in *.
      fold (np_sum (map (fun p => np_maximum (1 - snd p * (dot (fst p) w' + b')) 0) pts)) in *.
      lra.
Qed.

(** X4.  [hinge_grad] is a subgradient of [hinge_loss]: for data of one
    dimension [D] and any two models, the loss at the second is at least
    the loss at the first plus the gradient at the first applied to the
    difference. *)
Theorem hinge_grad_is_subgradient (D : nat) (w w' : vec) (b b' : Q)
    (X : matrix) (Y : vec) :
  X <> [] -> length X = length Y ->
  Forall (fun r => length r = D) X -> length w = D -> length w' = D ->
  hinge_loss w b X Y
  + dot (fst (hinge_grad w b X Y)) (vsub w' w)
  + snd (hinge_grad w b X Y) * (b' - b)
  <= hinge_loss w' b' X Y.
Proof.
  intros HX HL HD Lw Lw'.
  assert (HnD : ncols X = D).
  { destruct X as [|r X']; [congruence|]. inversion HD; assumption. }
  pose proof (hinge_subgradient_sum D w w' b b' (zip X Y) Lw Lw'
                (Forall_zip_fst _ X Y HD)) as S. simpl in S.
  unfold hinge_loss, hinge_grad, np_mean. cbn [fst snd].
  rewrite !margins_zip, !map_map, !length_map, HnD.
  assert (Lz : length (zip X Y) = length X).
  { rewrite length_zip. lia. }
  rewrite Lz.
  pose proof (length_positive X HX) as Hn.
  set (n := inject_Z (Z.of_nat (length X))) in *.
  rewrite dot_vdiv_l.
  set (A := np_sum (map (fun p => np_maximum (1 - snd p * (dot (fst p) w + b)) 0) (zip X Y))) in *.
  set (A' := np_sum (map (fun p => np_maximum (1 - snd p * (dot (fst p) w' + b')) 0) (zip X Y))) in *.
  set (G := dot _ (vsub w' w)) in *.
  set (Gb := np_sum (map (fun p : list Q * Q => - snd p) _)) in *.
  assert (E1 : A / n + G / n + Gb / n * (b' - b)
               == (A + G + Gb * (b' - b)) * / n) by (field; lra).
  rewrite E1. unfold Qdiv.
  apply Qmult_le_compat_r; [exact S|].
  apply Qlt_le_weak, Qinv_lt_0_compat, Hn.
Qed.

(** X4 on the instance, from zero weights to weight 1. *)
Lemma hinge_grad_is_subgradient_example :
  hinge_loss [0] 0 ex_x ex_y
  + dot (fst (hinge_grad [0] 0 ex_x ex_y)) (vsub [1] [0])
  + snd (hinge_grad [0] 0 ex_x ex_y) * ((1 # 3) - 0)
  <= hinge_loss [1] (1 # 3) ex_x ex_y.
Proof.
  apply (hinge_grad_is_subgradient 1 [0] [1] 0 (1 # 3) ex_x ex_y);
    try reflexivity; [discriminate|repeat constructor].
Defined.

Lemma np_sum_const (c : Q) (l : vec) :
  Forall (fun a => a == c) l ->
  np_sum l == inject_Z (Z.of_nat (length l)) * c.
Proof.
  induction 1 as [|a l Ha _ IH]; [simpl; ring|].
  cbn [np_sum foldr length]. fold (np_sum l).
  rewrite IH, Ha, Nat2Z.inj_succ. unfold Z.succ. rewrite inject_Z_plus. ring.
Qed.

Lemma np_mean_between (lo hi : Q) (l : vec) :
  l <> [] -> Forall (fun a => lo <= a <= hi) l ->
  lo <= np_mean l <= hi.
Proof.
  intros Hl HF. unfold np_mean.
  pose proof (length_positive l Hl) as Hn.
  set (n := inject_Z (Z.of_nat (length l))) in *.
  assert (S : n * lo <= np_sum l <= n * hi).
  { unfold n. clear Hl Hn n. induction HF as [|a l Ha _ IH].
    - change (0 * lo <= 0 <= 0 * hi). lra.
    - cbn [np_sum foldr length]. fold (np_sum l).
      rewrite Nat2Z.inj_succ. unfold Z.succ. rewrite inject_Z_plus.
      change (inject_Z 1) with 1. lra. }
  split.
  - apply Qle_shift_div_l; [assumption|]. lra.
  - apply Qle_shift_div_r; [assumption|]. lra.
Qed.

Lemma margin_at_zero (D : nat) (x : vec) (y : Q) :
  y * (dot x (zeros D) + 0) == 0.
Proof. rewrite dot_comm, dot_zeros_l. ring. Qed.

Lemma hinge_loss_point_at_zero (D : nat) (x : vec) (y : Q) :
  hinge_loss_point (zeros D) 0 x y == 1.
Proof.
  unfold hinge_loss_point. pose proof (margin_at_zero D x y) as E.
  rewrite np_maximum_pos by lra. lra.
Qed.

Lemma hinge_loss_at_zero (D : nat) (X : matrix) (Y : vec) :
  X <> [] -> length X = length Y -> hinge_loss (zeros D) 0 X Y == 1.
Proof.
  intros HX HL. unfold hinge_loss, np_mean.
  set (hs := map (fun m => np_maximum (1 - m) 0) (margins (zeros D) 0 X Y)).
  assert (F : Forall (fun a => a == 1) hs).
  { unfold hs. rewrite margins_zip, map_map. apply Forall_map, Forall_forall.
    intros p _. simpl. pose proof (margin_at_zero D (fst p) (snd p)) as E.
    rewrite np_maximum_pos by lra. lra. }
  assert (Lh : length hs = length X).
  { unfold hs. rewrite length_map. apply length_margins. assumption. }
  rewrite (np_sum_const 1 hs F), Lh.
  pose proof (length_positive X HX). field. lra.
Qed.

(** ** More on the certification loop *)

Section Run_more.

Context (np_sqrt : Q -> Q) (set_iter : vec -> list Q).
Context (minimize_over_feasible_set : Q -> vec -> result vec).
Context (x : matrix) (y : vec).
Context (norm_sq_constraint learning_rate : Q) (max_iter : nat).

Local Abbreviation np_norm := (np_norm np_sqrt).
Local Abbreviation rda_quantities :=
  (rda_quantities np_sqrt set_iter minimize_over_feasible_set x y).
Local Abbreviation dual_averaging := (dual_averaging np_sqrt norm_sq_constraint).
Local Abbreviation rda_init := (rda_init x learning_rate max_iter).
Local Abbreviation rda_run :=
  (rda_run np_sqrt set_iter minimize_over_feasible_set x y norm_sq_constraint).
Local Abbreviation iteration_view :=
  (iteration_view np_sqrt set_iter minimize_over_feasible_set x y
     norm_sq_constraint).
Local Abbreviation cert_rda_step :=
  (cert_rda_step np_sqrt set_iter minimize_over_feasible_set x y
     norm_sq_constraint).
Local Abbreviation cert_rda_loop :=
  (cert_rda_loop np_sqrt set_iter minimize_over_feasible_set x y
     norm_sq_constraint).
Local Abbreviation cert_rda :=
  (cert_rda np_sqrt set_iter minimize_over_feasible_set x y
     norm_sq_constraint learning_rate max_iter).
Local Abbreviation certify :=
  (certify np_sqrt set_iter minimize_over_feasible_set x y
     norm_sq_constraint learning_rate max_iter).
Local Abbreviation legacy_step :=
  (legacy_step np_sqrt set_iter minimize_over_feasible_set x y
     norm_sq_constraint).
Local Abbreviation legacy_loop :=
  (legacy_loop np_sqrt set_iter minimize_over_feasible_set x y
     norm_sq_constraint).
Local Abbreviation generate_upper_and_lower_bounds :=
  (generate_upper_and_lower_bounds np_sqrt set_iter minimize_over_feasible_set
     x y norm_sq_constraint learning_rate max_iter).

(** *** The norm ball (lines 213-225 / 545-556) *)

Lemma Qsquare (a : Q) : a ^ 2 == a * a.
Proof. reflexivity. Qed.

Lemma dot_vdiv_both (z : vec) (c : Q) :
  dot (vdiv z c) (vdiv z c) == dot z z / (c * c).
Proof.
  rewrite dot_vdiv_l, dot_comm, dot_vdiv_l.
  destruct (Qeq_dec c 0) as [E|E].
  - rewrite E. unfold Qdiv. change (/ (0 * 0)) with 0. change (/ 0) with 0.
    ring.
  - field. assumption.
Qed.

(** The update with a positive scale puts the model in the ball of squared
    radius [norm_sq_constraint], when the three square roots it takes are
    exact. *)
Lemma dual_averaging_in_ball (v : iter_view) (i : nat) (st st' : rda_state) :
  st' = dual_averaging v i st ->
  0 < current_lambda st ->
  sqrt_exact_at np_sqrt (dot (sum_of_grads_w st') (sum_of_grads_w st')) ->
  sqrt_exact_at np_sqrt
    (np_norm (sum_of_grads_w st') ^ 2 + sum_of_grads_b st' ^ 2) ->
  sqrt_exact_at np_sqrt norm_sq_constraint ->
  0 < norm_sq_constraint ->
  0 < current_lambda st' /\
  dot (w st') (w st') + b st' ^ 2 <= norm_sq_constraint.
Proof.
  intros -> Hl. unfold dual_averaging; cbn [sum_of_grads_w sum_of_grads_b w b current_lambda].
  set (z := vsub (sum_of_grads_w st) (grad_w v)).
  set (zb := sum_of_grads_b st - grad_b v).
  intros [_ Hn] [Hs0 Hs] [Hr0 Hr] Hpos.
  fold (np_norm z) in *.
  set (s := np_sqrt (np_norm z ^ 2 + zb ^ 2)) in *.
  set (r := np_sqrt norm_sq_constraint) in *.
  assert (Hrpos : 0 < r).
  { destruct (Qlt_le_dec 0 r) as [?|Hle]; [assumption|].
    assert (E : r == 0) by lra. rewrite E in Hr.
    change (0 ^ 2) with 0 in Hr. lra. }
  set (lam := if Qltb (current_lambda st) (s / r) then s / r else current_lambda st).
  assert (Hlam : 0 < lam /\ s / r <= lam).
  { unfold lam. destruct (Qltb (current_lambda st) (s / r)) eqn:E.
    - apply Qltb_lt in E. split; [lra|apply Qle_refl].
    - apply Qltb_ge in E. split; assumption. }
  destruct Hlam as [Hlam0 Hlam1]. split; [assumption|].
  rewrite dot_vdiv_both.
  assert (Hsr : s <= lam * r).
  { assert (E : s == s / r * r) by (field; lra).
    rewrite E at 1. apply Qmult_le_compat_r; [assumption|lra]. }
  assert (Hsq : s * s <= (lam * r) * (lam * r)).
  { apply Qmult_le_compat_nonneg; split; assumption. }
  assert (HS : dot z z + zb * zb == s * s).
  { rewrite Qsquare in Hs. rewrite Hs, Hn, Qsquare. reflexivity. }
  assert (Hl2 : 0 < lam * lam) by (apply Qmult_lt_0_compat; assumption).
  setoid_replace (dot z z / (lam * lam) + (zb / lam) ^ 2)
    with ((dot z z + zb * zb) / (lam * lam)) using relation Qeq
    by (rewrite Qsquare; field; lra).
  apply Qle_shift_div_r; [assumption|].
  rewrite HS. rewrite Qsquare in Hr. rewrite <- Hr.
  setoid_replace (r * r * (lam * lam)) with (lam * r * (lam * r))
    using relation Qeq by ring.
  exact Hsq.
Qed.

(** X5.  In both variants, after every dual-averaging update the model
    lies in the ball the caller asked for:
    [w.w + b^2 <= norm_sq_constraint], for a positive learning rate and
    constraint, when the square roots taken by that update ([np.linalg.norm]
    of the gradient sum, and the two [np.sqrt]) are exact. *)
Theorem model_in_norm_ball (clf : classifier) (epsilon : Q) (k : nat)
    (init_w : vec) (init_b : Q) (st' : rda_state) :
  0 < learning_rate -> 0 < norm_sq_constraint ->
  sqrt_exact_at np_sqrt norm_sq_constraint ->
  sqrt_exact_at np_sqrt (dot (sum_of_grads_w st') (sum_of_grads_w st')) ->
  sqrt_exact_at np_sqrt
    (np_norm (sum_of_grads_w st') ^ 2 + sum_of_grads_b st' ^ 2) ->
  (forall (best : Q) (self self' : Self.t),
      cert_rda_loop clf epsilon best (seq 0 (S k)) self (rda_init init_w init_b)
        = (self', Ok st') ->
      dot (w st') (w st') + b st' ^ 2 <= norm_sq_constraint) /\
  (forall bst : Legacy.best,
      clf = hinge_classifier ->
      legacy_loop epsilon (seq 0 (S k)) Legacy.init (rda_init init_w init_b)
        = Ok (bst, st') ->
      dot (w st') (w st') + b st' ^ 2 <= norm_sq_constraint).
Proof.
  intros Hlr Hnsc Hr Hz Hs.
  assert (G : rda_run clf epsilon (seq 0 (S k)) (rda_init init_w init_b) = Ok st' ->
              dot (w st') (w st') + b st' ^ 2 <= norm_sq_constraint).
  { intros H. rewrite seq_S, rda_run_app in H. simpl in H.
    destruct (rda_run clf epsilon (seq 0 k) (rda_init init_w init_b))
      as [st|e] eqn:Hk; [|discriminate].
    destruct (rda_quantities clf epsilon (w st) (b st)) as [v|e]; [|discriminate].
    injection H as H. symmetry in H.
    eapply dual_averaging_in_ball; eauto.
    eapply Qlt_le_trans; [|eapply rda_run_ratchet; exact Hk].
    simpl. unfold Qdiv. rewrite Qmult_1_l. apply Qinv_lt_0_compat. exact Hlr. }
  split.
  - intros best self self' H. apply G.
    rewrite <- cert_rda_loop_state with (best := best) (self := self).
    rewrite H. reflexivity.
  - intros bst -> H. apply G.
    pose proof (legacy_loop_state np_sqrt set_iter minimize_over_feasible_set
                  x y norm_sq_constraint epsilon (seq 0 (S k)) Legacy.init
                  (rda_init init_w init_b)) as L.
    rewrite H in L. exact L.
Qed.

(** *** What [generate_upper_and_lower_bounds] returns (lines 452-575) *)

Lemma iteration_view_unique (clf : classifier) (epsilon : Q) (st0 : rda_state)
    (t : nat) (v v' : iter_view) :
  iteration_view clf epsilon st0 t v -> iteration_view clf epsilon st0 t v' ->
  v = v'.
Proof.
  intros (st & H1 & H2) (st' & H1' & H2'). congruence.
Qed.

(** After [k] iterations the best-bound locals are either untouched, every
    total loss so far being at least 10000, or the snapshot of the first
    iteration that attains the least total loss so far. *)
Lemma legacy_loop_snapshot (epsilon : Q) (st0 : rda_state) :
  forall (k : nat) (bst : Legacy.best) (st : rda_state),
    legacy_loop epsilon (seq 0 k) Legacy.init st0 = Ok (bst, st) ->
    (bst = Legacy.init /\
     forall (t : nat) (v : iter_view),
       (t < k)%nat -> iteration_view hinge_classifier epsilon st0 t v ->
       10000 <= total_loss v) \/
    (exists (t : nat) (st_t : rda_state) (v : iter_view),
        (t < k)%nat /\
        rda_run hinge_classifier epsilon (seq 0 t) st0 = Ok st_t /\
        rda_quantities hinge_classifier epsilon (w st_t) (b st_t) = Ok v /\
        bst = Legacy.mk (total_loss v) (Some (good_loss v))
                (Some (bad_loss v)) (Some (params_norm_sq v))
                (Some (accuracy (w st_t) (b st_t) x y)) (Some (bad_acc v)) /\
        total_loss v < 10000 /\
        forall (t' : nat) (v' : iter_view),
          (t' < k)%nat -> iteration_view hinge_classifier epsilon st0 t' v' ->
          total_loss v <= total_loss v' /\
          ((t' < t)%nat -> total_loss v < total_loss v')).
Proof.
  induction k as [|k IH]; intros bst st H.
  - simpl in H. injection H as <- <-. left. split; [reflexivity|].
    intros t v Ht. lia.
  - rewrite seq_S, legacy_loop_app in H. simpl in H.
    destruct (legacy_loop epsilon (seq 0 k) Legacy.init st0)
      as [[bst_k st_k]|e] eqn:Hk; [|discriminate].
    pose proof (legacy_loop_state np_sqrt set_iter minimize_over_feasible_set
                  x y norm_sq_constraint epsilon (seq 0 k) Legacy.init st0) as Hrun.
    rewrite Hk in Hrun.
    unfold legacy_step in H.
    destruct (rda_quantities hinge_classifier epsilon (w st_k) (b st_k))
      as [v_k|e] eqn:Hv; [|discriminate].
    injection H as <- <-.
    assert (Vk : iteration_view hinge_classifier epsilon st0 k v_k)
      by (exists st_k; split; assumption).
    unfold legacy_record.
    destruct (IH _ _ eq_refl) as [[-> Hall]|(t & st_t & v & Ht & Hrt & Hvt & -> & Hlt & Hmin)].
    + cbn [Legacy.best_upper_bound Legacy.init].
      destruct (Qltb (total_loss v_k) 10000) eqn:E.
      * apply Qltb_lt in E. right. exists k, st_k, v_k.
        repeat split; auto.
        -- destruct (decide (t' = k)) as [->|Hne].
           ++ rewrite (iteration_view_unique _ _ _ _ _ _ H0 Vk). apply Qle_refl.
           ++ specialize (Hall t' v' ltac:(lia) H0). lra.
        -- intros Hlt'. specialize (Hall t' v' Hlt' H0). lra.
      * apply Qltb_ge in E. left. split; [reflexivity|].
        intros t v Ht Hview. destruct (decide (t = k)) as [->|Hne].
        -- rewrite (iteration_view_unique _ _ _ _ _ _ Hview Vk). assumption.
        -- apply (Hall t v); [lia|assumption].
    + cbn [Legacy.best_upper_bound].
      destruct (Qltb (total_loss v_k) (total_loss v)) eqn:E.
      * apply Qltb_lt in E. right. exists k, st_k, v_k.
        repeat split; auto; try lra.
        -- destruct (decide (t' = k)) as [->|Hne].
           ++ rewrite (iteration_view_unique _ _ _ _ _ _ H0 Vk). apply Qle_refl.
           ++ destruct (Hmin t' v' ltac:(lia) H0) as [Hle _]. lra.
        -- intros Hlt'. destruct (Hmin t' v' Hlt' H0) as [Hle _]. lra.
      * apply Qltb_ge in E. right. exists t, st_t, v.
        repeat split; auto.
        -- destruct (decide (t' = k)) as [->|Hne].
           ++ rewrite (iteration_view_unique _ _ _ _ _ _ H0 Vk). assumption.
           ++ apply (Hmin t' v'); [lia|assumption].
        -- intros Hlt'. apply (Hmin t' v'); [lia|assumption|assumption].
Qed.

(** A returned result, taken apart. *)
Lemma generate_ok_inv (np_random_choice : Z -> Z -> result (list nat))
    (epsilon : Q) (num_iter_to_throw_out : nat) (init_w : vec) (init_b : Q)
    (out : Legacy.output) :
  generate_upper_and_lower_bounds np_random_choice epsilon
    num_iter_to_throw_out init_w init_b = Ok out ->
  exists (bst : Legacy.best) (st : rda_state),
    legacy_loop epsilon (seq 0 max_iter) Legacy.init (rda_init init_w init_b)
      = Ok (bst, st) /\
    sample_lower_bound_attack np_random_choice x y (x_bs st) (y_bs st) epsilon
      num_iter_to_throw_out
      = Ok (Legacy.X_modified out, Legacy.Y_modified out,
            Legacy.idx_train out, Legacy.idx_poison out) /\
    bst = Legacy.mk (Legacy.out_best_upper_bound out)
            (Some (Legacy.out_best_upper_good_loss out))
            (Some (Legacy.out_best_upper_bad_loss out))
            (Some (Legacy.out_best_upper_params_norm_sq out))
            (Some (Legacy.out_best_upper_good_acc out))
            (Some (Legacy.out_best_upper_bad_acc out)).
Proof.
  unfold generate_upper_and_lower_bounds. intros H.
  destruct (Qeq_bool learning_rate 0); [discriminate|].
  destruct (legacy_loop _ _ _ _) as [[bst st]|e] eqn:Hloop; [|discriminate].
  destruct (sample_lower_bound_attack _ _ _ _ _ _ _)
    as [[[[Xm Ym] it] ip]|e] eqn:Hs; [|discriminate].
  destruct bst as [bb [gl|] [bl|] [pn|] [ga|] [ba|]]; simpl in H;
    try discriminate.
  injection H as <-. eexists _, st.
  split; [first [reflexivity | exact Hloop]|].
  split; [first [exact Hs | reflexivity] | reflexivity].
Qed.

(** X6.  When [generate_upper_and_lower_bounds] returns, its best bound is
    the least total loss over all [max_iter] iterations, and the returned
    losses, norm and accuracies are those of the first iteration that
    attains it. *)
Theorem legacy_returns_first_minimum
    (np_random_choice : Z -> Z -> result (list nat))
    (epsilon : Q) (num_iter_to_throw_out : nat) (init_w : vec) (init_b : Q)
    (out : Legacy.output) :
  generate_upper_and_lower_bounds np_random_choice epsilon
    num_iter_to_throw_out init_w init_b = Ok out ->
  exists (t : nat) (st_t : rda_state) (v : iter_view),
    (t < max_iter)%nat /\
    rda_run hinge_classifier epsilon (seq 0 t) (rda_init init_w init_b)
      = Ok st_t /\
    rda_quantities hinge_classifier epsilon (w st_t) (b st_t) = Ok v /\
    Legacy.out_best_upper_bound out = total_loss v /\
    Legacy.out_best_upper_good_loss out = good_loss v /\
    Legacy.out_best_upper_bad_loss out = bad_loss v /\
    Legacy.out_best_upper_params_norm_sq out = params_norm_sq v /\
    Legacy.out_best_upper_good_acc out = accuracy (w st_t) (b st_t) x y /\
    Legacy.out_best_upper_bad_acc out = bad_acc v /\
    forall (t' : nat) (v' : iter_view),
      (t' < max_iter)%nat ->
      iteration_view hinge_classifier epsilon (rda_init init_w init_b) t' v' ->
      total_loss v <= total_loss v' /\
      ((t' < t)%nat -> total_loss v < total_loss v').
Proof.
  intros H. destruct (generate_ok_inv _ _ _ _ _ _ H) as (bst & st & Hloop & _ & Hb).
  destruct (legacy_loop_snapshot _ _ _ _ _ Hloop)
    as [[E _]|(t & st_t & v & Ht & Hrt & Hvt & E & _ & Hmin)].
  - rewrite Hb in E. discriminate E.
  - rewrite Hb in E. injection E as E1 E2 E3 E4 E5 E6.
    exists t, st_t, v. repeat split; auto; apply (Hmin t' v'); assumption.
Qed.

(** X7.  Started from the zero model on a non-empty clean set, the bound
    that [generate_upper_and_lower_bounds] returns is never worse than the
    bound of the zero model, [1 + epsilon]. *)
Theorem legacy_bound_at_most_trivial
    (np_random_choice : Z -> Z -> result (list nat))
    (epsilon : Q) (num_iter_to_throw_out D : nat) (out : Legacy.output) :
  x <> [] -> length x = length y ->
  generate_upper_and_lower_bounds np_random_choice epsilon
    num_iter_to_throw_out (zeros D) 0 = Ok out ->
  Legacy.out_best_upper_bound out <= 1 + epsilon.
Proof.
  intros Hx Hxy H.
  destruct (generate_ok_inv _ _ _ _ _ _ H) as (bst & st & Hloop & _ & Hb).
  destruct (legacy_loop_snapshot _ _ _ _ _ Hloop)
    as [[E _]|(t & st_t & v & Ht & Hrt & Hvt & E & _ & Hmin)].
  { rewrite Hb in E. discriminate E. }
  rewrite Hb in E. injection E as E1 _ _ _ _ _. rewrite E1.
  pose proof (legacy_loop_state np_sqrt set_iter minimize_over_feasible_set
                x y norm_sq_constraint epsilon (seq 0 max_iter) Legacy.init
                (rda_init (zeros D) 0)) as Hrun.
  rewrite Hloop in Hrun.
  assert (P := Hrun).
  eapply rda_run_prefix with (j := 1%nat) in P; [|lia].
  destruct P as (st_1 & H1 & _).
  simpl in H1.
  destruct (rda_quantities hinge_classifier epsilon (zeros D) 0)
    as [v0|e] eqn:Hv0; [|discriminate].
  assert (V0 : iteration_view hinge_classifier epsilon (rda_init (zeros D) 0) 0 v0).
  { eexists. split; [reflexivity|exact Hv0]. }
  destruct (Hmin 0%nat v0 ltac:(lia) V0) as [Hle _].
  eapply Qle_trans; [exact Hle|].
  destruct (rda_quantities_ok _ _ _ _ _ _ _ _ _ _ Hv0) as (_ & _ & Hbad & Hgood & ->).
  rewrite Hbad, Hgood. simpl.
  rewrite hinge_loss_at_zero, hinge_loss_point_at_zero by assumption.
  lra.
Qed.

(** X8.  The record that [generate_upper_and_lower_bounds] returns is
    consistent: the bound is the clean loss plus [epsilon] times the
    adversarial loss, both losses are non-negative, the clean accuracy lies
    between 0 and 1, and the adversarial accuracy is 0 or 1. *)
Theorem legacy_record_ranges
    (np_random_choice : Z -> Z -> result (list nat))
    (epsilon : Q) (num_iter_to_throw_out : nat) (init_w : vec) (init_b : Q)
    (out : Legacy.output) :
  x <> [] -> length x = length y ->
  generate_upper_and_lower_bounds np_random_choice epsilon
    num_iter_to_throw_out init_w init_b = Ok out ->
  Legacy.out_best_upper_bound out
    = Legacy.out_best_upper_good_loss out
      + epsilon * Legacy.out_best_upper_bad_loss out /\
  0 <= Legacy.out_best_upper_good_loss out /\
  0 <= Legacy.out_best_upper_bad_loss out /\
  0 <= Legacy.out_best_upper_good_acc out <= 1 /\
  (Legacy.out_best_upper_bad_acc out = 0 \/
   Legacy.out_best_upper_bad_acc out = 1).
Proof.
  intros Hx Hxy H.
  destruct (generate_ok_inv _ _ _ _ _ _ H) as (bst & st & Hloop & _ & Hb).
  destruct (legacy_loop_snapshot _ _ _ _ _ Hloop)
    as [[E _]|(t & st_t & v & Ht & Hrt & Hvt & E & _ & _)].
  { rewrite Hb in E. discriminate E. }
  rewrite Hb in E. injection E as -> -> -> _ -> ->.
  destruct (rda_quantities_ok _ _ _ _ _ _ _ _ _ _ Hvt) as (_ & _ & Hbad & Hgood & Htot).
  split; [exact Htot|].
  split; [rewrite Hgood; simpl; apply hinge_loss_nonneg; assumption|].
  split; [rewrite Hbad; simpl; apply np_maximum_nonneg|].
  split.
  - unfold accuracy. apply np_mean_between.
    + intros E. apply (f_equal length) in E.
      rewrite length_map, length_margins in E by assumption.
      destruct x; [congruence|discriminate].
    + apply Forall_map, Forall_forall. intros m _. simpl.
      destruct (Qltb 0 m); lra.
  - unfold bad_acc. destruct (Qltb 0 (worst_margin v)); auto.
Qed.

(** *** Aborted and degenerate runs *)

Lemma cert_rda_loop_keeps_trace_attributes (clf : classifier)
    (epsilon best : Q) (idxs : list nat) :
  forall (self : Self.t) (st : rda_state),
    let self' := fst (cert_rda_loop clf epsilon best idxs self st) in
    Self.x_c self' = Self.x_c self /\ Self.y_c self' = Self.y_c self.
Proof.
  induction idxs as [|i rest IH]; intros self st; simpl; [split; reflexivity|].
  unfold cert_rda_step.
  destruct (rda_quantities clf epsilon (w st) (b st)) as [v|e]; simpl;
    [|split; reflexivity].
  destruct (IH (cert_rda_record x y best v st self)
              (dual_averaging v i st)) as [Hx Hy].
  destruct (cert_rda_loop clf epsilon best rest _ _) as [self1 r]; simpl in *.
  rewrite Hx, Hy. unfold cert_rda_record.
  destruct (Qltb (total_loss v) best); split; reflexivity.
Qed.

Lemma rda_quantities_without_labels (clf : classifier) (epsilon : Q)
    (w0 : vec) (b0 : Q) :
  set_iter y = [] -> rda_quantities clf epsilon w0 b0 = Raise TypeError.
Proof.
  intros E. unfold rda_quantities. rewrite E. simpl.
  destruct (loss_grad clf x y w0 b0). reflexivity.
Qed.

(** X9.  [cert_rda] commits the attack-point trace only when it completes:
    whenever the call raises, at whatever iteration, the attributes [x_c]
    and [y_c] of the object are what they were before the call. *)
Theorem cert_rda_abort_keeps_trace (clf : classifier) (start_w : vec)
    (epsilon : Q) (self self' : Self.t) (e : exn) :
  cert_rda clf start_w epsilon self = (self', Raise e) ->
  Self.x_c self' = Self.x_c self /\ Self.y_c self' = Self.y_c self.
Proof.
  unfold cert_rda. intros H.
  destruct (Qeq_bool learning_rate 0).
  { injection H as <- _. split; reflexivity. }
  pose proof (cert_rda_loop_keeps_trace_attributes clf epsilon 10000
                (seq 0 max_iter) self (rda_init (zeros (length start_w)) 0)) as K.
  destruct (cert_rda_loop _ _ _ _ _ _) as [self1 [st|e1]]; [discriminate|].
  injection H as <- _. exact K.
Qed.

(** X10.  A run whose first iteration cannot complete changes nothing and
    reports the error of that iteration: [cert_rda] returns the object as
    it was, and the legacy function raises the same error.  With no label
    to enumerate ([set(y)] empty) that error is [TypeError]. *)
Theorem first_iteration_failure (clf : classifier) (start_w : vec)
    (np_random_choice : Z -> Z -> result (list nat))
    (epsilon : Q) (e : exn) :
  (0 < max_iter)%nat -> ~ learning_rate == 0 ->
  (forall self : Self.t,
      rda_quantities clf epsilon (zeros (length start_w)) 0 = Raise e ->
      cert_rda clf start_w epsilon self = (self, Raise e)) /\
  (forall (num_iter_to_throw_out : nat) (init_w : vec) (init_b : Q),
      rda_quantities hinge_classifier epsilon init_w init_b = Raise e ->
      generate_upper_and_lower_bounds np_random_choice epsilon
        num_iter_to_throw_out init_w init_b = Raise e) /\
  (set_iter y = [] ->
   forall self : Self.t,
     cert_rda clf start_w epsilon self = (self, Raise TypeError)).
Proof.
  intros Hm Hlr.
  assert (Elr : Qeq_bool learning_rate 0 = false).
  { destruct (Qeq_bool learning_rate 0) eqn:E; [|reflexivity].
    apply Qeq_bool_iff in E. contradiction. }
  assert (Es : seq 0 max_iter = 0%nat :: seq 1 (max_iter - 1)).
  { destruct max_iter as [|m]; [lia|]. simpl. rewrite Nat.sub_0_r. reflexivity. }
  assert (C : forall (e0 : exn) (self : Self.t),
             rda_quantities clf epsilon (zeros (length start_w)) 0 = Raise e0 ->
             cert_rda clf start_w epsilon self = (self, Raise e0)).
  { intros e0 self Hq. unfold cert_rda. rewrite Elr, Es.
    simpl. unfold cert_rda_step. simpl. rewrite Hq. reflexivity. }
  split; [intros self; apply C|]. split.
  - intros throw init_w init_b Hq. unfold generate_upper_and_lower_bounds.
    rewrite Elr, Es. simpl. unfold legacy_step. simpl. rewrite Hq. reflexivity.
  - intros Hy self. apply C. apply rda_quantities_without_labels. exact Hy.
Qed.

(** *** The trace and the poisoned data set (lines 564-575) *)

Lemma lookup_map_Some {A B : Type} (f : A -> B) (l : list A) (j : nat) (c : B) :
  map f l !! j = Some c -> exists a : A, l !! j = Some a /\ c = f a.
Proof.
  revert j. induction l as [|a l IH]; intros [|j] H; simpl in H;
    try discriminate.
  - injection H as <-. exists a. split; reflexivity.
  - apply IH. exact H.
Qed.

Lemma take_rows_ok_inv {A : Type} (rows : list A) (idx : list nat) (l : list A) :
  take_rows rows idx = Ok l ->
  Forall2 (fun i r => rows !! i = Some r) idx l.
Proof.
  unfold take_rows. destruct (mapM _ idx) as [l'|] eqn:E; [|discriminate].
  intros [= <-]. apply mapM_Some_1 in E. exact E.
Qed.

(** A returned sample, taken apart. *)
Lemma sample_ok_inv (np_random_choice : Z -> Z -> result (list nat))
    (X_train : matrix) (Y_train : vec) (xb : matrix) (yb : vec)
    (epsilon : Q) (num_iter_to_throw_out : nat)
    (r : matrix * vec * (nat * nat) * (nat * nat)) :
  sample_lower_bound_attack np_random_choice X_train Y_train xb yb epsilon
    num_iter_to_throw_out = Ok r ->
  exists (drawn : list nat) (x_rows : matrix) (y_rows : vec),
    np_random_choice
      (Z.of_nat (length xb) - Z.of_nat num_iter_to_throw_out)%Z
      (np_round (epsilon * inject_Z (Z.of_nat (length X_train)))) = Ok drawn /\
    r = (X_train ++ x_rows, Y_train ++ y_rows, (0%nat, length X_train),
         (length X_train, (length X_train + length drawn)%nat)) /\
    Forall2 (fun i row => xb !! i = Some row)
      (map (fun i => (i + num_iter_to_throw_out)%nat) drawn) x_rows /\
    Forall2 (fun i row => yb !! i = Some row)
      (map (fun i => (i + num_iter_to_throw_out)%nat) drawn) y_rows.
Proof.
  unfold sample_lower_bound_attack. intros H.
  destruct (negb _); [discriminate|].
  destruct (np_random_choice _ _) as [drawn|e]; [|discriminate].
  destruct (take_rows xb _) as [x_rows|e] eqn:Ex; [|discriminate].
  destruct (take_rows yb _) as [y_rows|e] eqn:Ey; [|discriminate].
  injection H as <-.
  apply take_rows_ok_inv in Ex, Ey.
  exists drawn, x_rows, y_rows. repeat split; auto.
  rewrite length_app, <- (Forall2_length _ _ _ Ex), length_map. reflexivity.
Qed.

(** X11.  The data set that [generate_upper_and_lower_bounds] returns is
    the clean set, unchanged and first, followed by poisoned points each of
    which is the worst-margin attack point, with its label, that some
    iteration [t] of this very run selected, where
    [num_iter_to_throw_out <= t < max_iter]. *)
Theorem legacy_poison_from_trace
    (np_random_choice : Z -> Z -> result (list nat))
    (epsilon : Q) (num_iter_to_throw_out : nat) (init_w : vec) (init_b : Q)
    (out : Legacy.output) :
  generate_upper_and_lower_bounds np_random_choice epsilon
    num_iter_to_throw_out init_w init_b = Ok out ->
  exists (idx_to_sample : list nat) (x_rows : matrix) (y_rows : vec),
    Legacy.X_modified out = x ++ x_rows /\
    Legacy.Y_modified out = y ++ y_rows /\
    Legacy.idx_train out = (0%nat, length x) /\
    Legacy.idx_poison out
      = (length x, (length x + length idx_to_sample)%nat) /\
    length x_rows = length idx_to_sample /\
    length y_rows = length idx_to_sample /\
    forall (j t : nat),
      idx_to_sample !! j = Some t ->
      (num_iter_to_throw_out <= t < max_iter)%nat /\
      exists v : iter_view,
        iteration_view hinge_classifier epsilon (rda_init init_w init_b) t v /\
        x_rows !! j = Some (worst_x_b v) /\
        y_rows !! j = Some (worst_y_b v).
Proof.
  intros H. destruct (generate_ok_inv _ _ _ _ _ _ H) as (bst & st & Hloop & Hs & _).
  destruct (sample_ok_inv _ _ _ _ _ _ _ _ Hs) as (drawn & x_rows & y_rows & _ & E & Fx & Fy).
  injection E as E1 E2 E3 E4.
  set (idx := map (fun i => (i + num_iter_to_throw_out)%nat) drawn) in *.
  pose proof (legacy_loop_state np_sqrt set_iter minimize_over_feasible_set
                x y norm_sq_constraint epsilon (seq 0 max_iter) Legacy.init
                (rda_init init_w init_b)) as Hrun.
  rewrite Hloop in Hrun.
  destruct (rda_run_trace np_sqrt set_iter minimize_over_feasible_set x y
              norm_sq_constraint hinge_classifier epsilon
              (rda_init init_w init_b) max_iter st Hrun) as (Lx & Ly & Hrows).
  assert (Lx0 : length (x_bs (rda_init init_w init_b)) = max_iter)
    by apply length_replicate.
  assert (Ly0 : length (y_bs (rda_init init_w init_b)) = max_iter)
    by apply length_replicate.
  exists idx, x_rows, y_rows.
  split; [exact E1|]. split; [exact E2|]. split; [exact E3|].
  split; [rewrite E4; unfold idx; rewrite length_map; reflexivity|].
  split; [symmetry; apply (Forall2_length _ _ _ Fx)|].
  split; [symmetry; apply (Forall2_length _ _ _ Fy)|].
  intros j t Hj.
  destruct (Forall2_lookup_l _ _ _ _ _ Fx Hj) as (rx & Hrx & Hxt).
  destruct (Forall2_lookup_l _ _ _ _ _ Fy Hj) as (ry & Hry & Hyt).
  assert (Ht : (t < max_iter)%nat).
  { apply lookup_lt_Some in Hxt. lia. }
  split.
  - split; [|exact Ht]. unfold idx in Hj.
    apply lookup_map_Some in Hj. destruct Hj as (d & _ & ->). lia.
  - destruct (Hrows t Ht) as (st_t & v & Hr1 & Hr2 & Hx & Hy).
    exists v. split; [exists st_t; split; assumption|].
    rewrite Hx in Hxt by lia. rewrite Hy in Hyt by lia.
    injection Hxt as <-. injection Hyt as <-. split; assumption.
Qed.

(** After [k] iterations of [cert_rda] the object is either untouched,
    every total loss so far being at least 10000, or it holds the snapshot
    of the last iteration so far whose total loss is below 10000. *)
Lemma cert_rda_loop_last (clf : classifier) (epsilon : Q) (st0 : rda_state) :
  forall (k : nat) (self self' : Self.t) (st : rda_state),
    cert_rda_loop clf epsilon 10000 (seq 0 k) self st0 = (self', Ok st) ->
    (self' = self /\
     forall (t : nat) (v : iter_view),
       (t < k)%nat -> iteration_view clf epsilon st0 t v ->
       10000 <= total_loss v) \/
    (exists (t : nat) (st_t : rda_state) (v : iter_view),
        (t < k)%nat /\
        rda_run clf epsilon (seq 0 t) st0 = Ok st_t /\
        rda_quantities clf epsilon (w st_t) (b st_t) = Ok v /\
        total_loss v < 10000 /\
        self' = Self.mk (Self.x_c self) (Self.y_c self)
                  (Some (total_loss v)) (Some (good_loss v))
                  (Some (bad_loss v)) (Some (params_norm_sq v))
                  (Some (accuracy (w st_t) (b st_t) x y))
                  (Some (bad_acc v)) /\
        forall (t' : nat) (v' : iter_view),
          (t < t' < k)%nat -> iteration_view clf epsilon st0 t' v' ->
          10000 <= total_loss v').
Proof.
  induction k as [|k IH]; intros self self' st H.
  - simpl in H. injection H as <- <-. left. split; [reflexivity|].
    intros t v Ht. lia.
  - rewrite seq_S, cert_rda_loop_app in H. simpl in H.
    pose proof (cert_rda_loop_state np_sqrt set_iter minimize_over_feasible_set
                  x y norm_sq_constraint clf epsilon 10000 (seq 0 k) self st0)
      as Hrun.
    destruct (cert_rda_loop clf epsilon 10000 (seq 0 k) self st0)
      as [self_k [st_k|e]] eqn:Hk; [|discriminate].
    simpl in Hrun. symmetry in Hrun.
    unfold cert_rda_step in H.
    destruct (rda_quantities clf epsilon (w st_k) (b st_k))
      as [v_k|e] eqn:Hv; [|discriminate].
    injection H as <- <-.
    assert (Vk : iteration_view clf epsilon st0 k v_k)
      by (exists st_k; split; assumption).
    unfold cert_rda_record.
    destruct (Qltb (total_loss v_k) 10000) eqn:E.
    + apply Qltb_lt in E. right. exists k, st_k, v_k.
      split; [lia|]. split; [exact Hrun|]. split; [exact Hv|].
      split; [exact E|]. split.
      * destruct (IH _ _ _ Hk)
          as [[-> _]|(t & st_t & v & _ & _ & _ & _ & -> & _)]; reflexivity.
      * intros t' v' Ht'. lia.
    + apply Qltb_ge in E.
      destruct (IH _ _ _ Hk)
        as [[-> Hall]|(t & st_t & v & Ht & Hrt & Hvt & Hlt & -> & Hlater)].
      * left. split; [reflexivity|].
        intros t v Ht Hview. destruct (decide (t = k)) as [->|Hne].
        -- rewrite (iteration_view_unique _ _ _ _ _ _ Hview Vk). exact E.
        -- apply (Hall t v); [lia|assumption].
      * right. exists t, st_t, v.
        split; [lia|]. split; [exact Hrt|]. split; [exact Hvt|].
        split; [exact Hlt|]. split; [reflexivity|].
        intros t' v' Ht' Hview. destruct (decide (t' = k)) as [->|Hne].
        -- rewrite (iteration_view_unique _ _ _ _ _ _ Hview Vk). exact E.
        -- apply (Hlater t' v'); [lia|assumption].
Qed.

(** X19.  What [cert_rda] returns when it completes.  If some iteration
    has a total loss below 10000, the object holds the losses, the norm and
    the accuracies of the last such iteration, whatever the earlier
    iterations gave, and the call returns that iteration's total loss, its
    clean accuracy and its loss on the attack point.  Otherwise the best
    values of the object are those it had before the call, and these are
    returned. *)
Theorem cert_rda_returns_last_iteration (clf : classifier) (start_w : vec)
    (epsilon : Q) (self self' : Self.t)
    (ret : option Q * option Q * option Q) :
  cert_rda clf start_w epsilon self = (self', Ok ret) ->
  let st0 := rda_init (zeros (length start_w)) 0 in
  (exists (t : nat) (st_t : rda_state) (v : iter_view),
      (t < max_iter)%nat /\
      rda_run clf epsilon (seq 0 t) st0 = Ok st_t /\
      rda_quantities clf epsilon (w st_t) (b st_t) = Ok v /\
      total_loss v < 10000 /\
      (forall (t' : nat) (v' : iter_view),
          (t < t' < max_iter)%nat -> iteration_view clf epsilon st0 t' v' ->
          10000 <= total_loss v') /\
      Self.best_upper_bound self' = Some (total_loss v) /\
      Self.best_upper_good_loss self' = Some (good_loss v) /\
      Self.best_upper_bad_loss self' = Some (bad_loss v) /\
      Self.best_upper_params_norm_sq self' = Some (params_norm_sq v) /\
      Self.best_upper_good_acc self'
        = Some (accuracy (w st_t) (b st_t) x y) /\
      Self.best_upper_bad_acc self' = Some (bad_acc v) /\
      ret = (Some (total_loss v), Some (accuracy (w st_t) (b st_t) x y),
             Some (bad_loss v))) \/
  ((forall (t : nat) (v : iter_view),
       (t < max_iter)%nat -> iteration_view clf epsilon st0 t v ->
       10000 <= total_loss v) /\
   Self.best_upper_bound self' = Self.best_upper_bound self /\
   Self.best_upper_good_loss self' = Self.best_upper_good_loss self /\
   Self.best_upper_bad_loss self' = Self.best_upper_bad_loss self /\
   Self.best_upper_params_norm_sq self'
     = Self.best_upper_params_norm_sq self /\
   Self.best_upper_good_acc self' = Self.best_upper_good_acc self /\
   Self.best_upper_bad_acc self' = Self.best_upper_bad_acc self /\
   ret = (Self.best_upper_bound self, Self.best_upper_good_acc self,
          Self.best_upper_bad_loss self)).
Proof.
  intros H st0. unfold cert_rda in H.
  destruct (Qeq_bool learning_rate 0); [discriminate|].
  destruct (cert_rda_loop clf epsilon 10000 (seq 0 max_iter) self
              (rda_init (zeros (length start_w)) 0))
    as [self1 [st|e]] eqn:Hloop; [|discriminate].
  injection H as <- <-. cbn.
  destruct (cert_rda_loop_last _ _ _ _ _ _ _ Hloop)
    as [[-> Hall]|(t & st_t & v & Ht & Hrt & Hvt & Hlt & -> & Hlater)].
  - right. repeat split; auto.
  - left. exists t, st_t, v. cbn. repeat split; auto.
Qed.

End Run_more.

(** ** Runs of no iteration (lines 135 / 452 with [max_iter = 0]) *)




(** ** The lower bound (lines 133-371) *)

Section Lower_bound_facts.

Context (np_sqrt : Q -> Q).
Context (svm_fit : Q -> bool -> matrix -> vec -> result svm_model).
Context (svm_score : svm_model -> matrix -> vec -> result Q).

Local Abbreviation wd_search_loop := (wd_search_loop np_sqrt svm_fit).
Local Abbreviation svm_with_rho_squared :=
  (svm_with_rho_squared np_sqrt svm_fit svm_score).
Local Abbreviation evaluate_attack :=
  (evaluate_attack np_sqrt svm_fit svm_score).
Local Abbreviation raised_by_training := (raised_by_training svm_fit).
Local Abbreviation wd_search_returns := (wd_search_returns np_sqrt svm_fit).

Lemma wd_search_init_ordered (initial : option Q) :
  wd_search_ordered (wd_search_init initial).
Proof.
  unfold wd_search_ordered, wd_search_init.
  destruct initial as [wd|]; cbn [lower_wd_bound lower_weight_decay
                                    weight_decay upper_weight_decay].
  - destruct (Qltb (2 * wd - (1 # 1000)) (1 # 1000)) eqn:E.
    + repeat split; try apply Qle_refl; apply Qle_lteq; right; field.
    + apply Qltb_ge in E. repeat split; try apply Qle_refl.
      * apply Qle_shift_div_l; lra.
      * apply Qle_shift_div_r; lra.
  - repeat split; try apply Qle_refl; apply Qlt_le_weak; reflexivity.
Qed.

(** The value of the weight decay the search starts at. *)
Lemma wd_search_init_value (initial : option Q) :
  match initial with
  | Some wd =>
      1 # 1000 <= wd -> weight_decay (wd_search_init initial) == wd
  | None => weight_decay (wd_search_init initial) == 256001 # 2000
  end.
Proof.
  unfold wd_search_init. destruct initial as [wd|]; cbn.
  - intros Hwd. destruct (Qltb (2 * wd - (1 # 1000)) (1 # 1000)) eqn:Eq.
    + apply Qltb_lt in Eq. assert (E : wd == 1 # 1000) by lra.
      rewrite E. reflexivity.
    + field.
  - reflexivity.
Qed.

Lemma divisor_not_zero (X_train : matrix) (s : wd_search) :
  X_train <> [] -> wd_search_ordered s ->
  Qeq_bool (inject_Z (Z.of_nat (length X_train)) * weight_decay s) 0 = false.
Proof.
  intros HX (Hlb & H1 & H2 & H3).
  pose proof (length_positive X_train HX) as Hn.
  destruct (Qeq_bool _ 0) eqn:E0; [|reflexivity].
  apply Qeq_bool_iff in E0.
  assert (0 < inject_Z (Z.of_nat (length X_train)) * weight_decay s)
    by (apply Qmult_lt_0_compat; lra).
  lra.
Qed.

Lemma midpoint_between (lo hi : Q) :
  lo <= hi -> lo <= (hi + lo) / 2 /\ (hi + lo) / 2 <= hi.
Proof.
  intros Hlh. split; [apply Qle_shift_div_l | apply Qle_shift_div_r]; lra.
Qed.

(** The three states the loop body can leave are in order, and so is the
    state of the next pass. *)
Lemma wd_search_smaller_ordered (s : wd_search) :
  wd_search_ordered s ->
  wd_search_ordered
    (mk_wd_search (lower_wd_bound s) (upper_wd_bound s)
       (lower_weight_decay s) (weight_decay s) (weight_decay s)).
Proof.
  intros (L0 & L1 & L2 & L3). repeat split; cbn; auto. apply Qle_refl.
Qed.

Lemma wd_search_larger_ordered (s : wd_search) (bump : bool) :
  wd_search_ordered s ->
  wd_search_ordered
    (if bump
     then mk_wd_search (lower_wd_bound s) (upper_wd_bound s * 2)
            (weight_decay s) (upper_weight_decay s * 2) (weight_decay s)
     else mk_wd_search (lower_wd_bound s) (upper_wd_bound s)
            (weight_decay s) (upper_weight_decay s) (weight_decay s)).
Proof.
  intros (L0 & L1 & L2 & L3).
  destruct bump; repeat split; cbn; auto; try apply Qle_refl; lra.
Qed.

Lemma wd_search_next_ordered (s1 : wd_search) :
  wd_search_ordered s1 ->
  wd_search_ordered
    (mk_wd_search (lower_wd_bound s1) (upper_wd_bound s1)
       (lower_weight_decay s1) (upper_weight_decay s1)
       ((upper_weight_decay s1 + lower_weight_decay s1) / 2)).
Proof.
  intros (L0 & L1 & L2 & L3).
  destruct (midpoint_between (lower_weight_decay s1) (upper_weight_decay s1))
    as [M1 M2]; [lra|].
  repeat split; cbn; auto.
Qed.

Lemma larger_weight_decay (s : wd_search) (bump : bool) :
  weight_decay
    (if bump
     then mk_wd_search (lower_wd_bound s) (upper_wd_bound s * 2)
            (weight_decay s) (upper_weight_decay s * 2) (weight_decay s)
     else mk_wd_search (lower_wd_bound s) (upper_wd_bound s)
            (weight_decay s) (upper_weight_decay s) (weight_decay s))
  = weight_decay s.
Proof. destruct bump; reflexivity. Qed.

(** The bisection keeps [0.001 <= lower <= current <= upper]; what it
    returns is the model trained at the weight decay it returns; and an
    exception it raises was raised by training. *)
Lemma wd_search_loop_ok (X_train : matrix) (Y_train : vec)
    (upper : option Q) (use_bias : bool) (fuel : nat) :
  X_train <> [] ->
  forall s : wd_search,
    wd_search_ordered s ->
    match wd_search_loop fuel X_train Y_train upper use_bias s with
    | None => True
    | Some (Raise e) => raised_by_training use_bias X_train Y_train e
    | Some (Ok (s', fitted)) =>
        wd_search_returns X_train Y_train use_bias s' fitted
    end.
Proof.
  intros HX.
  induction fuel as [|fuel IH]; intros s Hs; cbn [wd_search_loop];
    [exact I|].
  rewrite (divisor_not_zero X_train s HX Hs).
  destruct (svm_fit _ use_bias X_train Y_train) as [m|e] eqn:Efit;
    [|left; eexists; exact Efit].
  destruct (intercept_first (intercept_ m)) as [bi|e] eqn:Eb;
    [|right; eexists _, m; split; [exact Efit|exact Eb]].
  assert (R : forall s1 : wd_search,
            wd_search_ordered s1 -> weight_decay s1 = weight_decay s ->
            wd_search_returns X_train Y_train use_bias s1
              (mk_svm_fitted m (coef_ m) bi
                 (np_norm np_sqrt (coef_ m) ^ 2 + bi ^ 2))).
  { intros s1 O W. split; [exact O|]. rewrite W. cbn.
    repeat split; auto. }
  destruct upper as [u|]; [|apply R; [exact Hs|reflexivity]].
  destruct (Qltb (np_norm np_sqrt (coef_ m) ^ 2 + bi ^ 2) u) eqn:Esmall.
  - cbn [orb].
    destruct (Qltb (weight_decay s) (lower_wd_bound s + (1 # 100000))).
    + apply R; [apply wd_search_smaller_ordered, Hs|reflexivity].
    + apply IH, wd_search_next_ordered, wd_search_smaller_ordered, Hs.
  - cbn [orb].
    set (bump := Qltb (upper_wd_bound s - (1 # 100000)) (weight_decay s)).
    destruct (Qltb (1 # 100) (Qabs (u - _))).
    + apply IH, wd_search_next_ordered, wd_search_larger_ordered, Hs.
    + apply R; [apply wd_search_larger_ordered, Hs
               |apply larger_weight_decay].
Qed.

(** How the loop can end with a target norm [upper]. *)
Lemma wd_search_loop_exit (X_train : matrix) (Y_train : vec) (u : Q)
    (use_bias : bool) (fuel : nat) :
  forall (s s' : wd_search) (fitted : svm_fitted),
    wd_search_loop fuel X_train Y_train (Some u) use_bias s
      = Some (Ok (s', fitted)) ->
    (u <= fitted_norm_sq fitted <= u + (1 # 100)) \/
    (fitted_norm_sq fitted < u /\
     weight_decay s' < lower_wd_bound s' + (1 # 100000)).
Proof.
  induction fuel as [|fuel IH]; intros s s' fitted H;
    cbn [wd_search_loop] in H; [discriminate|].
  destruct (Qeq_bool _ 0); [discriminate|].
  destruct (svm_fit _ use_bias X_train Y_train) as [m|e]; [|discriminate].
  destruct (intercept_first (intercept_ m)) as [bi|e]; [|discriminate].
  destruct (Qltb (np_norm np_sqrt (coef_ m) ^ 2 + bi ^ 2) u) eqn:Esmall.
  - cbn [orb] in H.
    destruct (Qltb (weight_decay s) (lower_wd_bound s + (1 # 100000))) eqn:Eb.
    + injection H as <- <-. right. apply Qltb_lt in Esmall, Eb.
      split; [exact Esmall|exact Eb].
    + eapply IH. exact H.
  - cbn [orb] in H.
    destruct (Qltb (1 # 100) (Qabs (u - _))) eqn:Etol.
    + eapply IH. exact H.
    + injection H as <- <-. left. apply Qltb_ge in Esmall, Etol.
      cbn [fitted_norm_sq]. split; [exact Esmall|].
      rewrite Qabs_neg in Etol by lra. lra.
Qed.

(** A result does not depend on the fuel left over. *)
Lemma wd_search_loop_fuel_mono (X_train : matrix) (Y_train : vec)
    (upper : option Q) (use_bias : bool) (fuel : nat) :
  forall (s : wd_search) (res : result (wd_search * svm_fitted))
         (fuel' : nat),
    wd_search_loop fuel X_train Y_train upper use_bias s = Some res ->
    (fuel <= fuel')%nat ->
    wd_search_loop fuel' X_train Y_train upper use_bias s = Some res.
Proof.
  induction fuel as [|fuel IH]; intros s res fuel' H Hle;
    cbn [wd_search_loop] in H; [discriminate|].
  destruct fuel' as [|fuel']; [lia|]. cbn [wd_search_loop].
  destruct (Qeq_bool _ 0); [exact H|].
  destruct (svm_fit _ use_bias X_train Y_train) as [m|e]; [|exact H].
  destruct (intercept_first (intercept_ m)) as [bi|e]; [|exact H].
  destruct upper as [u|]; [|exact H].
  destruct (Qltb (np_norm np_sqrt (coef_ m) ^ 2 + bi ^ 2) u).
  - cbn [orb] in *.
    destruct (Qltb (weight_decay s) (lower_wd_bound s + (1 # 100000)));
      [exact H|].
    apply IH; [exact H|lia].
  - cbn [orb] in *.
    destruct (Qltb (1 # 100) (Qabs (u - _))); [|exact H].
    apply IH; [exact H|lia].
Qed.

(** The loop has no bound of its own: while every model is more than the
    tolerance above the target, it goes on. *)
Lemma wd_search_loop_goes_on (X_train : matrix) (Y_train : vec) (u : Q)
    (use_bias : bool) (fuel : nat) :
  X_train <> [] ->
  (forall C : Q,
      exists (m : svm_model) (c : Q),
        svm_fit C use_bias X_train Y_train = Ok m /\
        intercept_first (intercept_ m) = Ok c /\
        u + (1 # 100) < np_norm np_sqrt (coef_ m) ^ 2 + c ^ 2) ->
  forall s : wd_search,
    wd_search_ordered s ->
    wd_search_loop fuel X_train Y_train (Some u) use_bias s = None.
Proof.
  intros HX Hbig.
  induction fuel as [|fuel IH]; intros s Hs; cbn [wd_search_loop];
    [reflexivity|].
  rewrite (divisor_not_zero X_train s HX Hs).
  destruct (Hbig (1 / (inject_Z (Z.of_nat (length X_train)) * weight_decay s)))
    as (m & c & -> & -> & Hn).
  assert (E1 : Qltb (np_norm np_sqrt (coef_ m) ^ 2 + c ^ 2) u = false).
  { destruct (Qltb _ u) eqn:E; [|reflexivity]. apply Qltb_lt in E. lra. }
  rewrite E1. cbn [orb].
  assert (E2 : Qltb (1 # 100)
                 (Qabs (u - (np_norm np_sqrt (coef_ m) ^ 2 + c ^ 2))) = true).
  { destruct (Qltb (1 # 100) _) eqn:E; [reflexivity|].
    apply Qltb_ge in E. rewrite Qabs_neg in E by lra. lra. }
  rewrite E2.
  apply IH, wd_search_next_ordered, wd_search_larger_ordered, Hs.
Qed.

(** A returned result, taken apart. *)
Lemma svm_ok_inv (X_train : matrix) (Y_train : vec)
    (X_test : matrix) (Y_test : vec) (upper : option Q) (use_bias : bool)
    (initial : option Q) (fuel : nat) (r : svm_result) :
  svm_with_rho_squared fuel X_train Y_train X_test Y_test upper use_bias
    initial = Some (Ok r) ->
  exists (s : wd_search) (fitted : svm_fitted),
    wd_search_loop fuel X_train Y_train upper use_bias
      (wd_search_init initial) = Some (Ok (s, fitted)) /\
    svm_weight_decay r = weight_decay s /\
    svm_fitted_model r = fitted_model fitted /\
    svm_params r = params fitted /\
    svm_bias r = bias fitted /\
    svm_params_norm_sq r = fitted_norm_sq fitted /\
    train_loss r = hinge_loss (params fitted) (bias fitted) X_train Y_train.
Proof.
  unfold svm_with_rho_squared. intros H.
  destruct (wd_search_loop fuel X_train Y_train upper use_bias _)
    as [[[s f]|e]|]; try discriminate H.
  destruct (svm_score (fitted_model f) X_train Y_train) as [a1|e];
    try discriminate H.
  destruct (svm_score (fitted_model f) X_test Y_test) as [a2|e];
    try discriminate H.
  injection H as <-. exists s, f. repeat split.
Qed.

(** The model a returned search hands back is the fit at the returned
    weight decay. *)
Lemma svm_search_consistent (X_train : matrix) (Y_train : vec)
    (X_test : matrix) (Y_test : vec) (upper : option Q) (use_bias : bool)
    (initial : option Q) (fuel : nat) (r : svm_result) :
  X_train <> [] ->
  svm_with_rho_squared fuel X_train Y_train X_test Y_test upper use_bias
    initial = Some (Ok r) ->
  1 # 1000 <= svm_weight_decay r /\
  svm_fit (1 / (inject_Z (Z.of_nat (length X_train)) * svm_weight_decay r))
    use_bias X_train Y_train = Ok (svm_fitted_model r) /\
  svm_params r = coef_ (svm_fitted_model r) /\
  intercept_first (intercept_ (svm_fitted_model r)) = Ok (svm_bias r) /\
  svm_params_norm_sq r
    = np_norm np_sqrt (svm_params r) ^ 2 + svm_bias r ^ 2 /\
  train_loss r = hinge_loss (svm_params r) (svm_bias r) X_train Y_train.
Proof.
  intros HX H.
  destruct (svm_ok_inv _ _ _ _ _ _ _ _ _ H)
    as (s & f & E & -> & -> & -> & -> & -> & ->).
  pose proof (wd_search_loop_ok X_train Y_train upper use_bias fuel HX
                (wd_search_init initial) (wd_search_init_ordered initial)) as K.
  rewrite E in K.
  destruct K as ((_ & K1 & K2 & _) & Kfit & Kp & Ki & Kn).
  repeat split; auto. lra.
Qed.

(** X13.  What [svm_with_rho_squared] does on a non-empty training set.
    A result it returns is consistent: the weight decay is at least 0.001,
    the model is the one [fit] returned for [C = 1 / (n * weight_decay)] at
    the returned weight decay, the parameters and the bias are its
    [coef_] and [intercept_[0]], and the norm and the training loss are
    those of these parameters.  An exception it raises was raised by
    [fit], by [intercept_[0]] or by [score]: the division never fails.
    With [use_bias = False] and scikit-learn's float intercept it returns
    no result: it raises in the first pass, [TypeError] unless [fit] raised
    before.  On an empty training set it raises [ZeroDivisionError]. *)
Theorem svm_search_sound (X_train : matrix) (Y_train : vec)
    (X_test : matrix) (Y_test : vec) (upper : option Q) (use_bias : bool)
    (initial : option Q) (fuel : nat) :
  (X_train <> [] ->
   forall res : result svm_result,
     svm_with_rho_squared fuel X_train Y_train X_test Y_test upper use_bias
       initial = Some res ->
     match res with
     | Ok r =>
         1 # 1000 <= svm_weight_decay r /\
         svm_fit (1 / (inject_Z (Z.of_nat (length X_train))
                       * svm_weight_decay r)) use_bias X_train Y_train
           = Ok (svm_fitted_model r) /\
         svm_params r = coef_ (svm_fitted_model r) /\
         intercept_first (intercept_ (svm_fitted_model r))
           = Ok (svm_bias r) /\
         svm_params_norm_sq r
           = np_norm np_sqrt (svm_params r) ^ 2 + svm_bias r ^ 2 /\
         train_loss r
           = hinge_loss (svm_params r) (svm_bias r) X_train Y_train
     | Raise e =>
         raised_by_training use_bias X_train Y_train e \/
         exists (m : svm_model) (X : matrix) (Y : vec),
           svm_score m X Y = Raise e
     end) /\
  (X_train <> [] -> linear_svc_ok svm_fit -> use_bias = false ->
   exists e : exn,
     svm_with_rho_squared (S fuel) X_train Y_train X_test Y_test upper
       use_bias initial = Some (Raise e) /\
     (e = TypeError \/
      exists C : Q, svm_fit C use_bias X_train Y_train = Raise e)) /\
  (X_train = [] ->
   svm_with_rho_squared (S fuel) X_train Y_train X_test Y_test upper use_bias
     initial = Some (Raise ZeroDivisionError)).
Proof.
  split; [|split].
  - intros HX res H. destruct res as [r|e].
    + exact (svm_search_consistent _ _ _ _ _ _ _ _ _ HX H).
    + unfold svm_with_rho_squared in H.
      pose proof (wd_search_loop_ok X_train Y_train upper use_bias fuel HX
                    (wd_search_init initial) (wd_search_init_ordered initial))
        as K.
      destruct (wd_search_loop fuel X_train Y_train upper use_bias _)
        as [[[s f]|e']|]; try discriminate H.
      * right.
        destruct (svm_score (fitted_model f) X_train Y_train) as [a1|e1] eqn:E1.
        -- destruct (svm_score (fitted_model f) X_test Y_test) as [a2|e2] eqn:E2;
             [discriminate H|].
           injection H as <-. eexists _, _, _. exact E2.
        -- injection H as <-. eexists _, _, _. exact E1.
      * injection H as <-. left. exact K.
  - intros HX Hsk ->. unfold svm_with_rho_squared. cbn [wd_search_loop].
    rewrite (divisor_not_zero X_train _ HX (wd_search_init_ordered initial)).
    destruct (svm_fit _ false X_train Y_train) as [m|e] eqn:Efit.
    + destruct (Hsk _ _ _ _ _ Efit) as [c Hc]. rewrite Hc. cbn.
      exists TypeError. split; [reflexivity|left; reflexivity].
    + exists e. split; [reflexivity|]. right. eexists. exact Efit.
  - intros ->. unfold svm_with_rho_squared. reflexivity.
Qed.

(** X14.  The search for a target [upper_params_norm_sq].  Whenever
    [svm_with_rho_squared] returns a result, the squared norm of the model
    is at least the target and exceeds it by at most 0.01, or it is below
    the target and the search gave up within 0.00001 of the smallest weight
    decay, 0.001.  What it returns or raises does not depend on the fuel
    left over.  The loop has no bound of its own: on a trainer all of whose
    models are more than 0.01 above the target it never returns. *)
Theorem svm_search_exit (X_train : matrix) (Y_train : vec)
    (X_test : matrix) (Y_test : vec) (u : Q) (use_bias : bool)
    (initial : option Q) :
  X_train <> [] ->
  (forall (fuel : nat) (r : svm_result),
      svm_with_rho_squared fuel X_train Y_train X_test Y_test (Some u)
        use_bias initial = Some (Ok r) ->
      (u <= svm_params_norm_sq r <= u + (1 # 100)) \/
      (svm_params_norm_sq r < u /\
       svm_weight_decay r < (1 # 1000) + (1 # 100000))) /\
  (forall (fuel fuel' : nat) (res : result svm_result),
      svm_with_rho_squared fuel X_train Y_train X_test Y_test (Some u)
        use_bias initial = Some res ->
      (fuel <= fuel')%nat ->
      svm_with_rho_squared fuel' X_train Y_train X_test Y_test (Some u)
        use_bias initial = Some res) /\
  ((forall C : Q,
       exists (m : svm_model) (c : Q),
         svm_fit C use_bias X_train Y_train = Ok m /\
         intercept_first (intercept_ m) = Ok c /\
         u + (1 # 100) < np_norm np_sqrt (coef_ m) ^ 2 + c ^ 2) ->
   forall fuel : nat,
     svm_with_rho_squared fuel X_train Y_train X_test Y_test (Some u)
       use_bias initial = None).
Proof.
  intros HX. split; [|split].
  - intros fuel r H.
    destruct (svm_ok_inv _ _ _ _ _ _ _ _ _ H)
      as (s & f & E & -> & _ & _ & _ & -> & _).
    pose proof (wd_search_loop_ok X_train Y_train (Some u) use_bias fuel HX
                  (wd_search_init initial) (wd_search_init_ordered initial))
      as K.
    rewrite E in K. destruct K as ((K0 & _) & _).
    destruct (wd_search_loop_exit _ _ _ _ _ _ _ _ E) as [L|[R1 R2]];
      [left; exact L|right].
    split; [exact R1|]. rewrite K0 in R2. exact R2.
  - intros fuel fuel' res H Hle. unfold svm_with_rho_squared in *.
    destruct (wd_search_loop fuel X_train Y_train (Some u) use_bias _)
      as [lr|] eqn:E; [|discriminate H].
    rewrite (wd_search_loop_fuel_mono _ _ _ _ _ _ _ _ E Hle). exact H.
  - intros Hbig fuel. unfold svm_with_rho_squared.
    rewrite (wd_search_loop_goes_on X_train Y_train u use_bias fuel HX Hbig
               _ (wd_search_init_ordered initial)).
    reflexivity.
Qed.

(** X15.  Without a target norm exactly one model is trained, whatever
    fuel is left after the first pass: at the weight decay the caller
    supplied when that is at least 0.001, and at 128.0005 when none was
    supplied.  If [fit] or [intercept_[0]] raises, so does the call;
    otherwise the call ends (with a result, or with what [score] raises),
    and a result holds this one model and this weight decay. *)
Theorem svm_without_target (X_train : matrix) (Y_train : vec)
    (X_test : matrix) (Y_test : vec) (use_bias : bool)
    (initial : option Q) (fuel : nat) :
  X_train <> [] ->
  let wd := weight_decay (wd_search_init initial) in
  let call :=
    svm_with_rho_squared (S fuel) X_train Y_train X_test Y_test None
      use_bias initial in
  match initial with
  | Some wd0 => 1 # 1000 <= wd0 -> wd == wd0
  | None => wd == 256001 # 2000
  end /\
  match svm_fit (1 / (inject_Z (Z.of_nat (length X_train)) * wd))
          use_bias X_train Y_train with
  | Raise e => call = Some (Raise e)
  | Ok m =>
      match intercept_first (intercept_ m) with
      | Raise e => call = Some (Raise e)
      | Ok c =>
          exists res : result svm_result,
            call = Some res /\
            forall r : svm_result,
              res = Ok r ->
              svm_weight_decay r = wd /\ svm_fitted_model r = m /\
              svm_params r = coef_ m /\ svm_bias r = c
      end
  end.
Proof.
  intros HX wd call. split; [apply wd_search_init_value|].
  unfold call, svm_with_rho_squared. cbn [wd_search_loop].
  rewrite (divisor_not_zero X_train _ HX (wd_search_init_ordered initial)).
  fold wd.
  destruct (svm_fit _ use_bias X_train Y_train) as [m|e]; [|reflexivity].
  destruct (intercept_first (intercept_ m)) as [c|e]; [|reflexivity].
  cbn [fitted_model params bias fitted_norm_sq].
  destruct (svm_score m X_train Y_train) as [a1|e1];
    [|eexists; split; [reflexivity|]; intros r E; discriminate E].
  destruct (svm_score m X_test Y_test) as [a2|e2];
    [|eexists; split; [reflexivity|]; intros r E; discriminate E].
  eexists. split; [reflexivity|]. intros r E. injection E as <-.
  repeat split.
Qed.

Lemma np_slice_app_l {A : Type} (l1 l2 : list A) (n : nat) :
  n = length l1 -> np_slice (0%nat, n) (l1 ++ l2) = l1.
Proof.
  intros ->. unfold np_slice. cbn [fst snd]. rewrite Nat.sub_0_r, drop_0.
  apply take_app_length.
Qed.

Lemma np_slice_app_r {A : Type} (l1 l2 : list A) (n k : nat) :
  n = length l1 -> k = length l2 ->
  np_slice (n, (n + k)%nat) (l1 ++ l2) = l2.
Proof.
  intros -> ->. unfold np_slice. cbn [fst snd].
  rewrite drop_app_length. apply take_ge. lia.
Qed.

Lemma margins_app (w : vec) (b : Q) (X Xp : matrix) (Y Yp : vec) :
  length X = length Y ->
  margins w b (X ++ Xp) (Y ++ Yp) = margins w b X Y ++ margins w b Xp Yp.
Proof.
  intros H. unfold margins. apply zip_with_app. exact H.
Qed.

(** The mean loss of two sets put together, from the two mean losses. *)
Lemma hinge_loss_app (w : vec) (b : Q) (X Xp : matrix) (Y Yp : vec) :
  length X = length Y -> length Xp = length Yp -> X <> [] -> Xp <> [] ->
  hinge_loss w b (X ++ Xp) (Y ++ Yp)
    * (inject_Z (Z.of_nat (length X)) + inject_Z (Z.of_nat (length Xp)))
  == inject_Z (Z.of_nat (length X)) * hinge_loss w b X Y
     + inject_Z (Z.of_nat (length Xp)) * hinge_loss w b Xp Yp.
Proof.
  intros HY HYp HX HXp. unfold hinge_loss, np_mean.
  rewrite margins_app by exact HY.
  rewrite map_app, length_app, !length_map, !length_margins by assumption.
  rewrite np_sum_app.
  pose proof (length_positive X HX) as Hn.
  pose proof (length_positive Xp HXp) as Hk.
  rewrite Nat2Z.inj_add, inject_Z_plus.
  set (n := inject_Z (Z.of_nat (length X))) in *.
  set (k := inject_Z (Z.of_nat (length Xp))) in *.
  field. repeat split; lra.
Qed.

(** X16.  [evaluate_attack] on a data set made of [n] clean rows followed
    by [k] poisoned rows, with the two slices the upper-bound code returns:
    the clean and the poisoned loss are the losses on the two parts of the
    model trained on the whole set at the returned weight decay, and the
    total loss is the sum over all rows scaled by [(1 + epsilon) / (n + k)];
    it is [avg_good + epsilon * avg_bad] exactly when [epsilon * n = k]. *)
Theorem evaluate_attack_total_loss (X Xp : matrix) (Y Yp : vec)
    (X_test : matrix) (Y_test : vec) (epsilon : Q)
    (initial upper : option Q) (use_bias : bool) (fuel : nat)
    (r : attack_result) :
  length X = length Y -> length Xp = length Yp -> X <> [] -> Xp <> [] ->
  evaluate_attack fuel (X ++ Xp) (Y ++ Yp) X_test Y_test
    (0%nat, length X) (length X, (length X + length Xp)%nat)
    epsilon initial upper use_bias = Some (Ok r) ->
  let n := inject_Z (Z.of_nat (length X)) in
  let k := inject_Z (Z.of_nat (length Xp)) in
  (exists (m : svm_model) (b : Q),
     svm_fit (1 / (inject_Z (Z.of_nat (length (X ++ Xp)))
                   * attack_weight_decay r))
       use_bias (X ++ Xp) (Y ++ Yp) = Ok m /\
     intercept_first (intercept_ m) = Ok b /\
     avg_good_train_loss r = hinge_loss (coef_ m) b X Y /\
     avg_bad_train_loss r = hinge_loss (coef_ m) b Xp Yp /\
     attack_params_norm_sq r = np_norm np_sqrt (coef_ m) ^ 2 + b ^ 2) /\
  total_train_loss r * (n + k)
  == (1 + epsilon) * (n * avg_good_train_loss r + k * avg_bad_train_loss r) /\
  (epsilon * n == k ->
   total_train_loss r
   == avg_good_train_loss r + epsilon * avg_bad_train_loss r).
Proof.
  intros HY HYp HX HXp H n k. unfold evaluate_attack in H.
  assert (HXm : X ++ Xp <> []) by (destruct X; [congruence|discriminate]).
  destruct (svm_with_rho_squared fuel (X ++ Xp) (Y ++ Yp) X_test Y_test upper
              use_bias initial) as [[sr|e]|] eqn:Esvm;
    [|discriminate|discriminate].
  destruct (svm_search_consistent _ _ _ _ _ _ _ _ _ HXm Esvm)
    as (_ & Kfit & _ & Ki & _).
  rewrite (np_slice_app_l X Xp _ eq_refl) in H.
  rewrite (np_slice_app_l Y Yp _ HY) in H.
  rewrite (np_slice_app_r X Xp _ _ eq_refl eq_refl) in H.
  rewrite (np_slice_app_r Y Yp _ _ HY HYp) in H.
  rewrite Ki in H.
  set (m := svm_fitted_model sr) in *. set (b := svm_bias sr) in *.
  destruct (svm_score m (X ++ Xp) (Y ++ Yp)) as [a1|e1]; [|discriminate H].
  destruct (svm_score m Xp Yp) as [a2|e2]; [|discriminate H].
  destruct (svm_score m X Y) as [a3|e3]; [|discriminate H].
  destruct (svm_score m X_test Y_test) as [a4|e4]; [|discriminate H].
  injection H as <-.
  cbn [total_train_loss avg_good_train_loss avg_bad_train_loss
       attack_params_norm_sq attack_weight_decay].
  pose proof (hinge_loss_app (coef_ m) b X Xp Y Yp HY HYp HX HXp) as A.
  fold n k in A.
  pose proof (length_positive X HX) as Hn. fold n in Hn.
  pose proof (length_positive Xp HXp) as Hk. fold k in Hk.
  split; [|split].
  - exists m, b. repeat split; auto.
  - transitivity ((1 + epsilon)
                  * (hinge_loss (coef_ m) b (X ++ Xp) (Y ++ Yp) * (n + k)));
      [ring|].
    rewrite A. reflexivity.
  - intros He.
    set (L := hinge_loss (coef_ m) b (X ++ Xp) (Y ++ Yp)) in *.
    set (G := hinge_loss (coef_ m) b X Y) in *.
    set (B := hinge_loss (coef_ m) b Xp Yp) in *.
    assert (E1 : L * (1 + epsilon) * n == L * (n + k))
      by (rewrite <- He; ring).
    assert (E2 : (G + epsilon * B) * n == n * G + k * B)
      by (rewrite <- He; ring).
    assert (E3 : L * (1 + epsilon) * n == (G + epsilon * B) * n)
      by (rewrite E1, E2; exact A).
    apply Qmult_inj_r in E3; [exact E3|lra].
Qed.

End Lower_bound_facts.

(** ** The reduced problems *)

Lemma dot_vsub_sq (a c : vec) :
  length a = length c ->
  dot (vsub a c) (vsub a c) == dot a a - 2 * dot a c + dot c c.
Proof.
  unfold dot, vsub. revert c.
  induction a as [|a0 a IH]; intros [|c0 c] H; simpl in *;
    try discriminate; try ring.
  rewrite IH by lia. ring.
Qed.

Lemma ncols_rows (D : nat) (P : matrix) :
  P <> [] -> Forall (fun r => length r = D) P -> ncols P = D.
Proof.
  intros HP HF. destruct P as [|r P]; [congruence|].
  inversion HF; assumption.
Qed.

Lemma length_vec_mat (D : nat) (x : vec) (P : matrix) :
  P <> [] -> Forall (fun r => length r = D) P -> length (vec_mat x P) = D.
Proof.
  intros HP HF. unfold vec_mat. rewrite (ncols_rows D P HP HF).
  apply length_sum_rows, scaled_rows, HF.
Qed.

(** [x.dot(P)] and [P.dot(v)] are adjoint. *)
Lemma dot_vec_mat (D : nat) (x : vec) (P : matrix) (v : vec) :
  P <> [] -> Forall (fun r => length r = D) P ->
  dot (vec_mat x P) v == dot x (mat_vec P v).
Proof.
  intros HP HF. unfold vec_mat. rewrite (ncols_rows D P HP HF). clear HP.
  revert x. induction HF as [|r P Hr HF IH]; intros [|a x];
    try (cbn [zip_with foldr mat_vec map]; rewrite dot_zeros_l;
         first [reflexivity | symmetry; apply dot_nil_r]).
  cbn [zip_with foldr mat_vec map].
  rewrite dot_vadd_l.
  - rewrite dot_scal_l, IH. unfold dot. simpl. reflexivity.
  - unfold scal. rewrite length_map, Hr. symmetry.
    apply length_sum_rows, scaled_rows, HF.
Qed.

(** Projecting a combination of three orthonormal rows gives back its
    coefficients. *)
Lemma mat_vec_vec_mat (D : nat) (x : vec) (P : matrix) :
  length P = 3%nat -> length x = 3%nat ->
  Forall (fun r => length r = D) P -> orthonormal P ->
  Forall2 Qeq (mat_vec P (vec_mat x P)) x.
Proof.
  intros LP Lx HF Ho.
  assert (HP : P <> []) by (destruct P; [discriminate|congruence]).
  assert (K : forall r : vec,
             dot r (vec_mat x P) == dot x (mat_vec P r)).
  { intros r. rewrite dot_comm. apply (dot_vec_mat D); assumption. }
  destruct P as [|r0 [|r1 [|r2 [|? ?]]]]; try discriminate LP.
  destruct x as [|a0 [|a1 [|a2 [|? ?]]]]; try discriminate Lx.
  pose proof (Ho 0%nat 0%nat r0 r0 eq_refl eq_refl) as H00.
  pose proof (Ho 1%nat 1%nat r1 r1 eq_refl eq_refl) as H11.
  pose proof (Ho 2%nat 2%nat r2 r2 eq_refl eq_refl) as H22.
  pose proof (Ho 0%nat 1%nat r0 r1 eq_refl eq_refl) as H01.
  pose proof (Ho 0%nat 2%nat r0 r2 eq_refl eq_refl) as H02.
  pose proof (Ho 1%nat 2%nat r1 r2 eq_refl eq_refl) as H12.
  pose proof (Ho 1%nat 0%nat r1 r0 eq_refl eq_refl) as H10.
  pose proof (Ho 2%nat 0%nat r2 r0 eq_refl eq_refl) as H20.
  pose proof (Ho 2%nat 1%nat r2 r1 eq_refl eq_refl) as H21.
  cbn [Nat.eqb] in *.
  set (X := vec_mat [a0; a1; a2] [r0; r1; r2]) in *.
  cbn [mat_vec map].
  repeat constructor; rewrite K; unfold dot; cbn [mat_vec map zip_with foldr].
  - rewrite H00, H10, H20. ring.
  - rewrite H01, H11, H21. ring.
  - rewrite H02, H12, H22. ring.
Qed.

Lemma np_dot_matrix_vec_ok (D : nat) (P : matrix) (v : vec) :
  Forall (fun r => length r = D) P -> length v = D ->
  np_dot_matrix_vec P v = Ok (mat_vec P v).
Proof.
  intros HF Lv. unfold np_dot_matrix_vec.
  replace (forallb (fun r => (length r =? length v)%nat) P) with true;
    [reflexivity|].
  symmetry. apply forallb_forall. intros r Hr.
  rewrite List.Forall_forall in HF. apply Nat.eqb_eq. rewrite Lv. auto.
Qed.

(** What the lift [x_opt.dot(P)] of a reduced point is, for three
    orthonormal rows [P] of dimension [D]. *)
Lemma lifted_point (D : nat) (P : matrix) (x_opt : vec) :
  length P = 3%nat -> Forall (fun r => length r = D) P -> orthonormal P ->
  (length x_opt <> 3%nat -> np_dot_vec_matrix x_opt P = Raise ValueError) /\
  (length x_opt = 3%nat ->
   exists x : vec,
     np_dot_vec_matrix x_opt P = Ok x /\
     length x = D /\
     Forall2 Qeq (mat_vec P x) x_opt /\
     (forall v : vec, dot v x == dot (mat_vec P v) x_opt) /\
     dot x x == dot x_opt x_opt).
Proof.
  intros LP HF Ho.
  assert (HP : P <> []) by (destruct P; [discriminate|congruence]).
  unfold np_dot_vec_matrix. rewrite LP. split.
  - intros Hx. apply Nat.eqb_neq in Hx. rewrite Hx. reflexivity.
  - intros Hx. rewrite Hx. cbn [Nat.eqb].
    exists (vec_mat x_opt P).
    pose proof (mat_vec_vec_mat D x_opt P LP Hx HF Ho) as R.
    assert (A : forall v : vec,
               dot v (vec_mat x_opt P) == dot (mat_vec P v) x_opt).
    { intros v. rewrite dot_comm, (dot_vec_mat D) by assumption.
      apply dot_comm. }
    repeat split; auto.
    + apply (length_vec_mat D); assumption.
    + rewrite A. rewrite dot_comm. apply dot_Qeq_r.
      apply R.
Qed.

Section Reduced_problem_facts.

Context (orth_rows : matrix -> matrix) (np_random_normal : nat -> nat -> vec).
Context (D : nat).

Local Abbreviation orth_call := (orth_call orth_rows np_random_normal D).

(** X17.  [Minimizer.minimize_over_feasible_set] for inputs of dimension
    [D], where [orth] returns an orthonormal basis of the row space in the
    calls the run makes: when it returns, the solver was given the three
    projections [P.dot(w)], [P.dot(centroid)], [P.dot(centroid_vec)]; a
    solver value that has not 3 entries raises [ValueError]; otherwise the
    returned point has dimension [D], projects back onto the solver's point,
    has the same squared norm, and has with every vector [v] the inner
    product that the solver's point has with [P.dot(v)], so that the
    objective [1 - y * w.x] of the returned point is the reduced objective
    of the solver's point. *)
Theorem minimizer_lifts_solution
    (prob_solve : Q -> vec -> vec -> vec -> Q -> Q -> vec) (fuel : nat)
    (y : Q) (w centroid centroid_vec : vec) (sphere_radius slab_radius : Q)
    (res : result vec) :
  length w = D -> length centroid = D -> length centroid_vec = D ->
  (forall k : nat, (k <= fuel)%nat ->
     orth_ok D orth_rows (orth_call w centroid centroid_vec k)) ->
  Minimizer.minimize_over_feasible_set orth_rows np_random_normal prob_solve
    fuel y w centroid centroid_vec sphere_radius slab_radius = Some res ->
  exists P : matrix,
    get_projection_matrix orth_rows np_random_normal fuel
      w centroid centroid_vec = Some P /\
    let x_opt :=
      prob_solve y (mat_vec P w) (mat_vec P centroid)
        (mat_vec P centroid_vec) sphere_radius slab_radius in
    (length x_opt <> 3%nat -> res = Raise ValueError) /\
    (length x_opt = 3%nat ->
     exists x : vec,
       res = Ok x /\ length x = D /\
       Forall2 Qeq (mat_vec P x) x_opt /\
       (forall v : vec, dot v x == dot (mat_vec P v) x_opt) /\
       1 - y * dot w x == 1 - y * dot (mat_vec P w) x_opt /\
       dot x x == dot x_opt x_opt).
Proof.
  intros Lw Lc Lv Horth H. unfold Minimizer.minimize_over_feasible_set in H.
  destruct (get_projection_matrix orth_rows np_random_normal fuel w centroid
              centroid_vec) as [P|] eqn:EP; [|discriminate].
  destruct (get_projection_matrix_rows orth_rows np_random_normal D
              w centroid centroid_vec Lw Lc Lv fuel P Horth EP)
    as (LP & HF & Ho).
  rewrite !(np_dot_matrix_vec_ok D) in H by assumption.
  injection H as <-. exists P. split; [reflexivity|].
  cbv zeta.
  destruct (lifted_point D P
              (prob_solve y (mat_vec P w) (mat_vec P centroid)
                 (mat_vec P centroid_vec) sphere_radius slab_radius)
              LP HF Ho) as [Bad Good].
  split; [exact Bad|].
  intros L3. destruct (Good L3) as (x & E & Lx & R & A & N).
  exists x. repeat split; auto. rewrite A. reflexivity.
Qed.

(** X18.  [Projector.project_onto_feasible_set], under the same
    assumptions, when the solver value has 3 entries: the squared distance
    of the returned point to [z] is the squared distance of the solver's
    point to [P.dot(z)], which the reduced problem minimises, plus the part
    of [z] that the projection loses, which does not depend on the
    solver. *)
Theorem projector_distance
    (prob_solve : vec -> vec -> vec -> Q -> Q -> vec) (fuel : nat)
    (z centroid centroid_vec : vec) (sphere_radius slab_radius : Q)
    (res : result vec) :
  length z = D -> length centroid = D -> length centroid_vec = D ->
  (forall k : nat, (k <= fuel)%nat ->
     orth_ok D orth_rows (orth_call z centroid centroid_vec k)) ->
  Projector.project_onto_feasible_set orth_rows np_random_normal prob_solve
    fuel z centroid centroid_vec sphere_radius slab_radius = Some res ->
  exists P : matrix,
    get_projection_matrix orth_rows np_random_normal fuel
      z centroid centroid_vec = Some P /\
    let cvx_z := mat_vec P z in
    let x_opt :=
      prob_solve cvx_z (mat_vec P centroid) (mat_vec P centroid_vec)
        sphere_radius slab_radius in
    (length x_opt = 3%nat ->
     exists x : vec,
       res = Ok x /\ length x = D /\
       dot (vsub x z) (vsub x z)
       == dot (vsub x_opt cvx_z) (vsub x_opt cvx_z)
          + (dot z z - dot cvx_z cvx_z)).
Proof.
  intros Lz Lc Lv Horth H. unfold Projector.project_onto_feasible_set in H.
  destruct (get_projection_matrix orth_rows np_random_normal fuel z centroid
              centroid_vec) as [P|] eqn:EP; [|discriminate].
  destruct (get_projection_matrix_rows orth_rows np_random_normal D
              z centroid centroid_vec Lz Lc Lv fuel P Horth EP)
    as (LP & HF & Ho).
  rewrite !(np_dot_matrix_vec_ok D) in H by assumption.
  injection H as <-. exists P. split; [reflexivity|].
  cbv zeta.
  set (x_opt := prob_solve (mat_vec P z) (mat_vec P centroid)
                  (mat_vec P centroid_vec) sphere_radius slab_radius).
  destruct (lifted_point D P x_opt LP HF Ho) as [_ Good].
  intros L3. destruct (Good L3) as (x & E & Lx & R & A & N).
  exists x. split; [exact E|]. split; [exact Lx|].
  rewrite !dot_vsub_sq.
  - rewrite N. rewrite (dot_comm x z), (A z), (dot_comm (mat_vec P z) x_opt).
    ring.
  - unfold mat_vec. rewrite length_map. lia.
  - lia.
Qed.

End Reduced_problem_facts.

(** * The instance: further evaluations *)

(** X5 on an instance where the ratchet engages: one clean point, the sum
    of gradients after the first update is [(3, 4)], its norm 5 becomes the
    scale and the model has squared norm 1. *)
Lemma model_in_norm_ball_example :
  exists self' st',
    cert_rda_loop sqrt_floor first_occurrences interval_oracle [[0]] [1] 1
      hinge_classifier 3 10000 (seq 0 1) Self.init
      (rda_init [[0]] 1 1 [0] 0) = (self', Ok st') /\
    Qred (current_lambda st') = 5 /\
    dot (w st') (w st') + b st' ^ 2 <= 1.
Proof.
  do 2 eexists. split; [vm_compute; reflexivity|].
  split; [vm_compute; reflexivity|].
  refine (proj1 (model_in_norm_ball sqrt_floor first_occurrences
                   interval_oracle [[0]] [1] 1 1 1 hinge_classifier 3 0
                   [0] 0 _ _ _ _ _ _) 10000 Self.init _ _).
  - reflexivity.
  - reflexivity.
  - split; vm_compute; [discriminate|reflexivity].
  - split; vm_compute; [discriminate|reflexivity].
  - split; vm_compute; [discriminate|reflexivity].
  - vm_compute. reflexivity.
Defined.

(** X6 on the instance: two iterations. *)
Lemma legacy_returns_first_minimum_example :
  exists out t v,
    ex_legacy 2 (1 # 2) 1 = Ok out /\ (t < 2)%nat /\
    Legacy.out_best_upper_bound out = total_loss v /\
    Legacy.out_best_upper_good_loss out = good_loss v /\
    Legacy.out_best_upper_bad_loss out = bad_loss v.
Proof.
  eexists.
  destruct (legacy_returns_first_minimum sqrt_floor first_occurrences
              interval_oracle ex_x ex_y 1 (1 # 10) 2 choice_first (1 # 2) 1
              [0] 0 _ eq_refl)
    as (t & st_t & v & Ht & Hrun & Hv & E1 & E2 & E3 & _).
  exists t, v. split; [reflexivity|]. auto.
Defined.

(** X7 on the instance: the bound [3/2] is the trivial one. *)
Lemma legacy_bound_at_most_trivial_example :
  exists out,
    ex_legacy 2 (1 # 2) 1 = Ok out /\
    Legacy.out_best_upper_bound out <= 1 + (1 # 2).
Proof.
  eexists. split; [vm_compute; reflexivity|].
  apply (legacy_bound_at_most_trivial sqrt_floor first_occurrences
           interval_oracle ex_x ex_y 1 (1 # 10) 2 choice_first (1 # 2) 1 1);
    [discriminate|reflexivity|vm_compute; reflexivity].
Defined.

(** X8 on the instance. *)
Lemma legacy_record_ranges_example :
  exists out,
    ex_legacy 2 (1 # 2) 1 = Ok out /\
    Legacy.out_best_upper_bound out
      = Legacy.out_best_upper_good_loss out
        + (1 # 2) * Legacy.out_best_upper_bad_loss out /\
    0 <= Legacy.out_best_upper_good_loss out /\
    0 <= Legacy.out_best_upper_bad_loss out /\
    0 <= Legacy.out_best_upper_good_acc out <= 1 /\
    (Legacy.out_best_upper_bad_acc out = 0 \/
     Legacy.out_best_upper_bad_acc out = 1).
Proof.
  eexists. split; [vm_compute; reflexivity|].
  apply (legacy_record_ranges sqrt_floor first_occurrences
           interval_oracle ex_x ex_y 1 (1 # 10) 2 choice_first (1 # 2) 1 [0] 0);
    [discriminate|reflexivity|vm_compute; reflexivity].
Defined.

(** X9 on the instance with the solver that fails at the second
    iteration. *)
Lemma cert_rda_abort_keeps_trace_example :
  exists self',
    ex_cert_rda flaky_oracle 2 (1 # 2) Self.init = (self', Raise SolverError) /\
    Self.x_c self' = Self.x_c Self.init /\ Self.y_c self' = Self.y_c Self.init.
Proof.
  eexists. split; [vm_compute; reflexivity|].
  apply (cert_rda_abort_keeps_trace sqrt_floor first_occurrences flaky_oracle
           ex_x ex_y 1 (1 # 10) 2 hinge_classifier [0] (1 # 2) Self.init _
           SolverError).
  vm_compute. reflexivity.
Defined.

(** X10 on an empty clean set. *)
Lemma first_iteration_failure_example :
  cert_rda sqrt_floor first_occurrences interval_oracle [] [] 1 (1 # 10) 2
    hinge_classifier [0] (1 # 2) Self.init = (Self.init, Raise TypeError).
Proof.
  refine (proj2 (proj2 (first_iteration_failure sqrt_floor first_occurrences
                          interval_oracle [] [] 1 (1 # 10) 2 hinge_classifier
                          [0] choice_first (1 # 2) TypeError _ _))
            eq_refl Self.init).
  - lia.
  - vm_compute. discriminate.
Defined.

(** X11 on the instance: one poisoned point, the attack point of the
    second iteration. *)
Lemma legacy_poison_from_trace_example :
  exists out,
    ex_legacy 2 (1 # 2) 1 = Ok out /\
    Legacy.X_modified out = ex_x ++ [[2]] /\
    Legacy.Y_modified out = ex_y ++ [-1 # 1] /\
    exists (idx_to_sample : list nat) (x_rows : matrix) (y_rows : vec),
      Legacy.X_modified out = ex_x ++ x_rows /\
      Legacy.Y_modified out = ex_y ++ y_rows /\
      Legacy.idx_train out = (0%nat, length ex_x) /\
      Legacy.idx_poison out
        = (length ex_x, (length ex_x + length idx_to_sample)%nat).
Proof.
  eexists. split; [vm_compute; reflexivity|].
  split; [vm_compute; reflexivity|]. split; [vm_compute; reflexivity|].
  destruct (legacy_poison_from_trace sqrt_floor first_occurrences
              interval_oracle ex_x ex_y 1 (1 # 10) 2 choice_first (1 # 2) 1
              [0] 0 _ eq_refl)
    as (idx & xr & yr & E1 & E2 & E3 & E4 & _).
  exists idx, xr, yr. auto.
Defined.


(** X13 on the instance: the search for squared norm 1 on one row, and
    the same call without an intercept. *)
Lemma svm_search_sound_example :
  (exists r : svm_result,
      svm_with_rho_squared sqrt_floor ex_fit ex_score 40 [[1]] [1] [[1]] [1]
        (Some 1) true None = Some (Ok r) /\
      1 # 1000 <= svm_weight_decay r /\
      ex_fit (1 / (1 * svm_weight_decay r)) true [[1]] [1]
        = Ok (svm_fitted_model r)) /\
  svm_with_rho_squared sqrt_floor ex_fit ex_score 40 [[1]] [1] [[1]] [1]
    (Some 1) false None = Some (Raise TypeError).
Proof.
  split; [|vm_compute; reflexivity].
  assert (E : { r : svm_result |
               svm_with_rho_squared sqrt_floor ex_fit ex_score 40 [[1]] [1]
                 [[1]] [1] (Some 1) true None = Some (Ok r) })
    by (eexists; vm_compute; reflexivity).
  destruct E as [r E].
  assert (HX : [[1]] <> ([] : matrix)) by discriminate.
  pose proof (proj1 (svm_search_sound sqrt_floor ex_fit ex_score [[1]] [1]
                       [[1]] [1] (Some 1) true None 40) HX (Ok r) E)
    as (Hwd & Hfit & _).
  exists r. split; [exact E|]. split; [exact Hwd|exact Hfit].
Defined.

(** X14 on the instance: the search ends within the tolerance. *)
Lemma svm_search_exit_example :
  exists r : svm_result,
    svm_with_rho_squared sqrt_floor ex_fit ex_score 40 [[1]] [1] [[1]] [1]
      (Some 1) true None = Some (Ok r) /\
    ((1 <= svm_params_norm_sq r <= 1 + (1 # 100)) \/
     (svm_params_norm_sq r < 1 /\
      svm_weight_decay r < (1 # 1000) + (1 # 100000))).
Proof.
  assert (HX : [[1]] <> ([] : matrix)) by discriminate.
  eexists. split; [vm_compute; reflexivity|].
  apply (proj1 (svm_search_exit sqrt_floor ex_fit ex_score [[1]] [1] [[1]]
                  [1] 1 true None HX) 40%nat).
  vm_compute. reflexivity.
Defined.

(** X15 on the instance: one fit at the weight decay 1/2. *)
Lemma svm_without_target_example :
  exists r : svm_result,
    svm_with_rho_squared sqrt_floor ex_fit ex_score 1 [[1]] [1] [[1]] [1]
      None true (Some (1 # 2)) = Some (Ok r) /\
    svm_weight_decay r == 1 # 2.
Proof.
  assert (HX : [[1]] <> ([] : matrix)) by discriminate.
  destruct (svm_without_target sqrt_floor ex_fit ex_score [[1]] [1] [[1]] [1]
              true (Some (1 # 2)) 0 HX) as [Hwd H].
  cbv [ex_fit intercept_first intercept_] in H.
  destruct H as (res & E & Hr).
  assert (R : { r : svm_result |
               svm_with_rho_squared sqrt_floor ex_fit ex_score 1 [[1]] [1]
                 [[1]] [1] None true (Some (1 # 2)) = Some (Ok r) })
    by (eexists; vm_compute; reflexivity).
  destruct R as [r R]. exists r. split; [exact R|].
  assert (E' : Some (Ok r) = Some res) by (rewrite <- R; exact E).
  injection E' as <-.
  destruct (Hr r eq_refl) as (Hw & _). rewrite Hw. apply Hwd. discriminate.
Defined.

(** X16 on the instance: one clean and one poisoned row, [epsilon = 1]. *)
Lemma evaluate_attack_total_loss_example :
  exists r : attack_result,
    evaluate_attack sqrt_floor ex_fit ex_score 40 ([[1]] ++ [[2]])
      ([1] ++ [-1 # 1]) [[1]] [1] (0%nat, 1%nat) (1%nat, 2%nat) 1 None
      (Some 1) true = Some (Ok r) /\
    total_train_loss r == avg_good_train_loss r + 1 * avg_bad_train_loss r.
Proof.
  eexists. split; [vm_compute; reflexivity|].
  apply (evaluate_attack_total_loss sqrt_floor ex_fit ex_score [[1]] [[2]]
           [1] [-1 # 1] [[1]] [1] 1 None (Some 1) true 40);
    try reflexivity; try discriminate.
Defined.

(** On three inputs along the axes [orth_axis] is an [orth]. *)
Lemma orth_axis_frame (k : nat) :
  (k <= 0)%nat ->
  orth_ok 3 orth_axis
    (orth_call orth_axis axis_draws 3 [1; 0; 0] [0; 2; 0] [0; 0; 1] k).
Proof.
  intros Hk. destruct k as [|k]; [|lia].
  apply (orth_ok_intro 3 orth_axis _ [[1; 0; 0]; [0; 2; 0]; [0; 0; 1]]
           [[1; 0; 0]; [0; 1; 0]; [0; 0; 1]]);
    [reflexivity|vm_compute; reflexivity|simpl; lia
    |repeat constructor|solve_orthonormal| |].
  - constructor; [solve_span [1; 0; 0]|].
    constructor; [solve_span [0; 1 # 2; 0]|].
    constructor; [solve_span [0; 0; 1]|]. constructor.
  - constructor; [solve_span [1; 0; 0]|].
    constructor; [solve_span [0; 2; 0]|].
    constructor; [solve_span [0; 0; 1]|]. constructor.
Qed.

(** X17 on the instance: in dimension 3 with the axes as rows, the point is
    the solver's. *)
Lemma minimizer_lifts_solution_example :
  exists x : vec,
    Minimizer.minimize_over_feasible_set orth_axis axis_draws
      (fun _ _ centroid _ sphere_radius _ => ex_solve centroid sphere_radius)
      0 1 [1; 0; 0] [0; 2; 0] [0; 0; 1] 3 1 = Some (Ok x) /\
    length x = 3%nat /\
    1 - 1 * dot [1; 0; 0] x == -2 # 1.
Proof.
  destruct (minimizer_lifts_solution orth_axis axis_draws 3
              (fun _ _ centroid _ sphere_radius _ =>
                 ex_solve centroid sphere_radius)
              0 1 [1; 0; 0] [0; 2; 0] [0; 0; 1] 3 1
              (Ok [3; 2; 0]) eq_refl eq_refl eq_refl orth_axis_frame)
    as (P & EP & _ & Good).
  - vm_compute. reflexivity.
  - vm_compute in EP. injection EP as <-.
    destruct (Good eq_refl) as (x & E & Lx & _ & _ & Obj & _).
    exists x. split; [|split].
    + vm_compute. injection E as <-. reflexivity.
    + exact Lx.
    + rewrite Obj. vm_compute. reflexivity.
Defined.

(** X18 on the instance. *)
Lemma projector_distance_example :
  exists x : vec,
    Projector.project_onto_feasible_set orth_axis axis_draws
      (fun _ centroid _ sphere_radius _ => ex_solve centroid sphere_radius)
      0 [1; 0; 0] [0; 2; 0] [0; 0; 1] 3 1 = Some (Ok x) /\
    dot (vsub x [1; 0; 0]) (vsub x [1; 0; 0]) == 8.
Proof.
  destruct (projector_distance orth_axis axis_draws 3
              (fun _ centroid _ sphere_radius _ =>
                 ex_solve centroid sphere_radius)
              0 [1; 0; 0] [0; 2; 0] [0; 0; 1] 3 1
              (Ok [3; 2; 0]) eq_refl eq_refl eq_refl orth_axis_frame)
    as (P & EP & Good).
  - vm_compute. reflexivity.
  - vm_compute in EP. injection EP as <-.
    destruct (Good eq_refl) as (x & E & _ & Dist).
    exists x. split.
    + vm_compute. injection E as <-. reflexivity.
    + rewrite Dist. vm_compute. reflexivity.
Defined.

(** X19 on the instance: two iterations, both below 10000. *)
Lemma cert_rda_returns_last_iteration_example :
  exists (self' : Self.t) (ret : option Q * option Q * option Q)
         (t : nat) (v : iter_view),
    ex_cert_rda interval_oracle 2 (1 # 2) Self.init = (self', Ok ret) /\
    (t < 2)%nat /\
    iteration_view sqrt_floor first_occurrences interval_oracle ex_x ex_y 1
      hinge_classifier (1 # 2) (rda_init ex_x (1 # 10) 2 (zeros 1) 0) t v /\
    Self.best_upper_bound self' = Some (total_loss v).
Proof.
  destruct (ex_cert_rda interval_oracle 2 (1 # 2) Self.init)
    as [self' [ret|e]] eqn:E.
  - pose proof E as E0. vm_compute in E0.
    destruct (cert_rda_returns_last_iteration sqrt_floor first_occurrences
                interval_oracle ex_x ex_y 1 (1 # 10) 2 hinge_classifier [0]
                (1 # 2) Self.init self' ret E)
      as [(t & st_t & v & Ht & Hrt & Hvt & _ & _ & Hb & _)|(_ & Hb & _)].
    + exists self', ret, t, v. split; [reflexivity|]. split; [exact Ht|].
      split; [exists st_t; split; assumption|exact Hb].
    + injection E0 as <- _. discriminate Hb.
  - vm_compute in E. discriminate E.
Defined.
